(** * MINIMIZE: derivative-free minimisation (glob_min, brentmin, powell)

    A shallow embedding of [MINIMIZE.CPP] in exact rational arithmetic.

    - A C [double] is a rational [Q]; every operation is exact.  Comparisons
      [<], [<=], [==] of the source are the boolean tests [Qlt_bool],
      [Qle_bool], [Qeq_bool].
    - A quotient whose divisor is exactly zero has no rational value (the
      machine yields an infinity or a NaN).  Its value is left to the
      environment record [libm], together with the library functions [exp],
      [log] and [sqrt] that the rationals do not have.
    - An [int] is a [Z].
    - The two endless loops of [glob_min] and the main loop of [powell] run
      on fuel and return [None] when it is used up.
    - Output parameters ([double *]) become fields of a returned record. *)

From Stdlib Require Import QArith Qabs ZArith List Bool Lia Lqa.
Import ListNotations.
Open Scope Q_scope.

(** ** Numbers *)

Definition Qlt_bool (a b : Q) : bool := negb (Qle_bool b a).

Record libm : Type := {
  div0 : Q -> Q;      (* a / 0.0 *)
  fexp : Q -> Q;      (* exp *)
  flog : Q -> Q;      (* log *)
  fsqrt : Q -> Q      (* sqrt *)
}.

Definition fdiv (M : libm) (a b : Q) : Q :=
  if Qeq_bool b 0 then div0 M a else a / b.

(** Powers of ten for the source's literals [1.e-40], [1.e40], [1.e60]. *)
Definition ten_pow (k : positive) : Q := inject_Z (Z.pow_pos 10 k).

(** ** GLOB_MIN *)

Module GlobMin.

Record bracket : Type := {
  x1 : Q; y1 : Q;
  x2 : Q; y2 : Q;
  x3 : Q; y3 : Q
}.

(** Locals of the scan loop; [*x2], [*y2], [*y1], [*y3] are written in
    place.  [idx] is the loop counter [i] when the loop is left and [broke]
    tells whether it was left through [break]. *)
Record scan : Type := {
  cur_x : Q;
  previous : Q;
  ibest : Z;
  turned_up : bool;
  s_y1 : Q; s_x2 : Q; s_y2 : Q; s_y3 : Q;
  idx : Z;
  broke : bool
}.

Section Defs.
Variable M : libm.
Variable criter : Q -> Q.

Definition grid_rate (log_space : bool) (low high : Q) (npts : Z) : Q :=
  if log_space
  then fexp M (fdiv M (flog M (fdiv M high low)) (inject_Z (npts - 1)))
  else fdiv M (high - low) (inject_Z (npts - 1)).

Definition init_scan (low : Q) (b0 : bracket) : scan :=
  {| cur_x := low; previous := 0; ibest := (-1)%Z; turned_up := false;
     s_y1 := y1 b0; s_x2 := x2 b0; s_y2 := y2 b0; s_y3 := y3 b0;
     idx := 0%Z; broke := false |}.

(** Lines 80-93: bookkeeping for the point [i] with value [y]. *)
Definition scan_point (i : Z) (y : Q) (s : scan) : scan :=
  if (i =? 0)%Z || Qlt_bool y (s_y2 s) then
    {| cur_x := cur_x s; previous := y; ibest := i; turned_up := false;
       s_y1 := previous s; s_x2 := cur_x s; s_y2 := y; s_y3 := s_y3 s;
       idx := i; broke := false |}
  else if (i =? ibest s + 1)%Z then
    {| cur_x := cur_x s; previous := y; ibest := ibest s; turned_up := true;
       s_y1 := s_y1 s; s_x2 := s_x2 s; s_y2 := s_y2 s; s_y3 := y;
       idx := i; broke := false |}
  else
    {| cur_x := cur_x s; previous := y; ibest := ibest s;
       turned_up := turned_up s;
       s_y1 := s_y1 s; s_x2 := s_x2 s; s_y2 := s_y2 s; s_y3 := s_y3 s;
       idx := i; broke := false |}.

(** Line 95: the [break] test. *)
Definition good_enough (critlim : Q) (s : scan) : bool :=
  Qle_bool (s_y2 s) critlim && (0 <? ibest s)%Z && turned_up s.

Definition leave (s : scan) (i : Z) (b : bool) : scan :=
  {| cur_x := cur_x s; previous := previous s; ibest := ibest s;
     turned_up := turned_up s;
     s_y1 := s_y1 s; s_x2 := s_x2 s; s_y2 := s_y2 s; s_y3 := s_y3 s;
     idx := i; broke := b |}.

Definition advance (log_space : bool) (rate : Q) (s : scan) : scan :=
  {| cur_x := if log_space then cur_x s * rate else cur_x s + rate;
     previous := previous s; ibest := ibest s; turned_up := turned_up s;
     s_y1 := s_y1 s; s_x2 := s_x2 s; s_y2 := s_y2 s; s_y3 := s_y3 s;
     idx := idx s; broke := broke s |}.

(** Lines 73-102; [todo] is [npts - i]. *)
Fixpoint scan_loop (log_space : bool) (critlim : Q) (know_first_point : bool)
    (rate : Q) (todo : nat) (i : Z) (s : scan) : scan :=
  match todo with
  | O => leave s i false
  | S todo' =>
      let y := if negb (i =? 0)%Z || negb know_first_point
               then criter (cur_x s) else s_y2 s in
      let s1 := scan_point i y s in
      if good_enough critlim s1 then leave s1 i true
      else scan_loop log_space critlim know_first_point rate todo' (i + 1)
             (advance log_space rate s1)
  end.

(** Lines 110-117. *)
Definition neighbours (log_space : bool) (rate : Q) (s : scan) : bracket :=
  {| x1 := if log_space then fdiv M (s_x2 s) rate else s_x2 s - rate;
     y1 := s_y1 s;
     x2 := s_x2 s; y2 := s_y2 s;
     x3 := if log_space then s_x2 s * rate else s_x2 s + rate;
     y3 := s_y3 s |}.

(** Lines 127-146. *)
Fixpoint extend_right (fuel : nat) (log_space : bool) (rate : Q)
    (b : bracket) : option bracket :=
  match fuel with
  | O => None
  | S fuel' =>
      let v := criter (x3 b) in
      let b1 := {| x1 := x1 b; y1 := y1 b; x2 := x2 b; y2 := y2 b;
                   x3 := x3 b; y3 := v |} in
      if Qlt_bool (y2 b) v then Some b1
      else if Qeq_bool (y1 b) (y2 b) && Qeq_bool (y2 b) v then Some b1
      else
        let rate' := rate * 2 in
        extend_right fuel' log_space rate'
          {| x1 := x2 b; y1 := y2 b; x2 := x3 b; y2 := v;
             x3 := if log_space then x3 b * rate' else x3 b + rate';
             y3 := v |}
  end.

(** Lines 150-169. *)
Fixpoint extend_left (fuel : nat) (log_space : bool) (rate : Q)
    (b : bracket) : option bracket :=
  match fuel with
  | O => None
  | S fuel' =>
      let v := criter (x1 b) in
      let b1 := {| x1 := x1 b; y1 := v; x2 := x2 b; y2 := y2 b;
                   x3 := x3 b; y3 := y3 b |} in
      if Qlt_bool (y2 b) v then Some b1
      else if Qeq_bool v (y2 b) && Qeq_bool (y2 b) (y3 b) then Some b1
      else
        let rate' := rate * 2 in
        extend_left fuel' log_space rate'
          {| x1 := if log_space then fdiv M (x1 b) rate' else x1 b - rate';
             y1 := v; x2 := x1 b; y2 := v;
             x3 := x2 b; y3 := y2 b |}
  end.

Definition run_scan (low high : Q) (npts : Z) (log_space : bool)
    (critlim : Q) (b0 : bracket) : scan :=
  let know_first_point := (npts <? 0)%Z in
  let npts := if (npts <? 0)%Z then (- npts)%Z else npts in
  scan_loop log_space critlim know_first_point
    (grid_rate log_space low high npts) (Z.to_nat npts) 0 (init_scan low b0).

(** [b0] holds what the output parameters point at on entry.  [*y2] is
    read when [npts] is negative; with [npts = 0] the scan writes nothing
    and the entry values reach the extension loop. *)
Definition glob_min (fuel : nat) (low high : Q) (npts : Z) (log_space : bool)
    (critlim : Q) (b0 : bracket) : option bracket :=
  let npts' := if (npts <? 0)%Z then (- npts)%Z else npts in
  let rate := grid_rate log_space low high npts' in
  let s := run_scan low high npts log_space critlim b0 in
  let b := neighbours log_space rate s in
  if negb (turned_up s) then extend_right fuel log_space rate b
  else if (ibest s =? 0)%Z then extend_left fuel log_space rate b
  else Some b.

End Defs.
End GlobMin.

(** ** BRENTMIN *)

Module Brent.

(** The locals that live across iterations. *)
Record state : Type := {
  x0 : Q; x1 : Q; x2 : Q;
  y0 : Q; y1 : Q; y2 : Q;
  xleft : Q; xright : Q;
  movement : Q; trial : Q
}.

(** What the caller gets: [*xa], [*xb], [*xc], the returned value, and the
    value of [iter] when the loop is left (the number of evaluations). *)
Record result : Type := {
  xa : Q; xb : Q; xc : Q;
  fval : Q;
  iters : Z
}.

Definition golden_ratio : Q := 3819660 # 10000000.
Definition tiny : Q := 1 / ten_pow 40.     (* 1.e-40 *)
Definition huge : Q := ten_pow 40.         (* 1.e40 *)

Section Defs.
Variable M : libm.
Variables critlim eps tol : Q.
Variable criter : Q -> Q.

Definition init (xa0 xb0 xc0 y : Q) : state :=
  {| x0 := xb0; x1 := xb0; x2 := xb0; y0 := y; y1 := y; y2 := y;
     xleft := xa0; xright := xc0; movement := 0; trial := 0 |}.

(** Lines 239-245. *)
Definition small_step (s : state) : Q :=
  (if Qlt_bool (Qabs (x0 s)) 1 then 1 else Qabs (x0 s)) * tol.

Definition small_dist (s : state) : Q := 2 * small_step s.

Definition xmid (s : state) : Q := (1 # 2) * (xleft s + xright s).

(** Line 230. *)
Definition below_critlim (s : state) : bool := Qlt_bool (y0 s) critlim.

(** Line 247. *)
Definition converged (s : state) : bool :=
  Qle_bool (Qabs (x0 s - xmid s))
           (small_dist s - (1 # 2) * (xright s - xleft s)).

(** Line 254. *)
Definition refined (iter : Z) (s : state) : bool :=
  (4 <=? iter)%Z && Qlt_bool (fdiv M (y2 s - y0 s) (y0 s + 1)) eps.

Definition stop (iter : Z) (s : state) : bool :=
  below_critlim s || converged s || refined iter s.

(** Lines 258-267. *)
Definition numer (s : state) : Q :=
  let temp1 := (x0 s - x2 s) * (y0 s - y1 s) in
  let temp2 := (x0 s - x1 s) * (y0 s - y2 s) in
  (x0 s - x1 s) * temp2 - (x0 s - x2 s) * temp1.

Definition denom (s : state) : Q :=
  let temp1 := (x0 s - x2 s) * (y0 s - y1 s) in
  let temp2 := (x0 s - x1 s) * (y0 s - y2 s) in
  2 * (temp1 - temp2).

Definition parabolic (s : state) : Q :=
  if Qlt_bool tiny (Qabs (denom s)) then fdiv M (numer s) (denom s)
  else huge.

(** Lines 278-279 and 283-284. *)
Definition golden_movement (s : state) : Q :=
  if Qlt_bool (x0 s) (xmid s) then xright s - x0 s else xleft s - x0 s.

Definition golden (s : state) : Q * Q :=
  (golden_movement s, golden_ratio * golden_movement s).

(** Line 257. *)
Definition moving (s : state) : bool :=
  Qlt_bool (small_step s) (Qabs (movement s)).

(** Lines 270-271, on the parabolic estimate [t]. *)
Definition usable (s : state) (t : Q) : bool :=
  Qlt_bool (2 * Qabs t) (Qabs (movement s))
  && Qlt_bool (xleft s) (t + x0 s)
  && Qlt_bool (t + x0 s) (xright s).

(** Lines 273-274. *)
Definition too_close (s : state) (t : Q) : bool :=
  Qlt_bool (t + x0 s - xleft s) (small_dist s)
  || Qlt_bool (xright s - (t + x0 s)) (small_dist s).

(** Lines 257-285: the new [movement] and [trial]. *)
Definition next_trial (s : state) : Q * Q :=
  if moving s then
    let t := parabolic s in
    if usable s t then
      if too_close s t
      then (trial s,
            if Qlt_bool (x0 s) (xmid s) then small_step s
            else - small_step s)
      else (trial s, t)
    else golden s
  else golden s.

(** Lines 287-290. *)
Definition trial_point (s : state) (t : Q) : Q :=
  if Qle_bool (small_step s) (Qabs t) then x0 s + t
  else if Qlt_bool 0 t then x0 s + small_step s
  else x0 s - small_step s.

(** Lines 299-328. *)
Definition insert (s : state) (m t this_x this_y : Q) : state :=
  if Qle_bool this_y (y0 s) then
    {| x0 := this_x; x1 := x0 s; x2 := x1 s;
       y0 := this_y; y1 := y0 s; y2 := y1 s;
       xleft := if Qlt_bool this_x (x0 s) then xleft s else x0 s;
       xright := if Qlt_bool this_x (x0 s) then x0 s else xright s;
       movement := m; trial := t |}
  else
    let xl := if Qle_bool (x0 s) this_x then xleft s else this_x in
    let xr := if Qle_bool (x0 s) this_x then this_x else xright s in
    if Qle_bool this_y (y1 s) || Qeq_bool (x1 s) (x0 s) then
      {| x0 := x0 s; x1 := this_x; x2 := x1 s;
         y0 := y0 s; y1 := this_y; y2 := y1 s;
         xleft := xl; xright := xr; movement := m; trial := t |}
    else if Qle_bool this_y (y2 s) || Qeq_bool (x2 s) (x0 s)
            || Qeq_bool (x2 s) (x1 s) then
      {| x0 := x0 s; x1 := x1 s; x2 := this_x;
         y0 := y0 s; y1 := y1 s; y2 := this_y;
         xleft := xl; xright := xr; movement := m; trial := t |}
    else
      {| x0 := x0 s; x1 := x1 s; x2 := x2 s;
         y0 := y0 s; y1 := y1 s; y2 := y2 s;
         xleft := xl; xright := xr; movement := m; trial := t |}.

(** One pass through the loop body after the three exit tests. *)
Definition step (s : state) : state :=
  let '(m, t) := next_trial s in
  let this_x := trial_point s t in
  insert s m t this_x (criter this_x).

(** Lines 228-329; [todo] is [itmax - iter]. *)
Fixpoint loop (todo : nat) (iter : Z) (s : state) : state * Z :=
  match todo with
  | O => (s, iter)
  | S todo' =>
      if stop iter s then (s, iter) else loop todo' (iter + 1) (step s)
  end.

Definition brentmin (itmax : Z) (xa0 xb0 xc0 y : Q) : result :=
  let '(s, n) := loop (Z.to_nat itmax) 0 (init xa0 xb0 xc0 y) in
  {| xa := xleft s; xb := x0 s; xc := xright s; fval := y0 s; iters := n |}.

End Defs.
End Brent.

(** ** POWELL *)

(** Vectors ([double *] with [n] entries) are lists; a loop over all
    entries is a map. *)
Definition vadd (u v : list Q) : list Q :=
  map (fun p => fst p + snd p) (combine u v).

Definition vsub (u v : list Q) : list Q :=
  map (fun p => fst p - snd p) (combine u v).

(** [base[i] + t * direc[i]] for every [i]. *)
Definition along (base dir : list Q) (t : Q) : list Q :=
  map (fun p => fst p + t * snd p) (combine base dir).

Definition sumsq (p : list Q) : Q :=
  fold_left (fun len v => len + v * v) p 0.

(** [l[k] = v]; the source never writes outside the array. *)
Fixpoint upd (k : nat) (v : Q) (l : list Q) : list Q :=
  match l, k with
  | [], _ => []
  | _ :: l', O => v :: l'
  | a :: l', S k' => a :: upd k' v l'
  end.

(** The [n] entries from [direc + r * n]. *)
Definition row (n r : nat) (direc : list Q) : list Q :=
  firstn n (skipn (r * n) direc).

(** Lines 566-567: [direc[r*n+i] = p[i]] for [i] from [i] on. *)
Fixpoint write_row (todo i : nat) (n r : nat) (p direc : list Q) : list Q :=
  match todo with
  | O => direc
  | S todo' =>
      write_row todo' (S i) n r p (upd (r * n + i) (nth i p 0) direc)
  end.

(** Lines 390-393. *)
Definition identity (n : nat) : list Q :=
  flat_map (fun i => map (fun j => if Nat.eqb j i then 1 else 0) (seq 0 n))
           (seq 0 n).

Module Powell.

Import GlobMin.

(** The locals of [powell] that live across iterations of the main loop,
    with the arrays [x] and [direc]. *)
Record state : Type := {
  x : list Q;
  direc : list Q;
  fbest : Q;
  prev_best : Q;
  scale : Q;
  iter : Z;
  convergence_counter : Z;
  replaced : Z
}.

(** How the main loop was left. *)
Inductive exit : Type :=
| Cap                  (* line 408 *)
| Critlim              (* line 411 *)
| Converged            (* line 424 *)
| LineCritlim          (* line 469, goto FINISH *)
| ReplacementCritlim.  (* line 553 *)

(** The locals of the loop over the directions. *)
Record walk : Type := {
  w_x : list Q;
  w_fbest : Q;
  w_scale : Q;
  delta : Q;
  idelta : nat
}.

Section Defs.
Variable M : libm.
Variable maxits : Z.
Variables critlim tol : Q.
Variable criter : list Q -> Q.
Variable n : nat.

Definition univar_crit (base dir : list Q) (t : Q) : Q :=
  criter (along base dir t).

(** The variables [t1 y1 t2 y2 t3 y3] when [glob_min] is called: [y2] was
    just set to [fbest]; [glob_min] with [npts = 15] reads none of them. *)
Definition start (fb : Q) : bracket :=
  {| x1 := 0; y1 := 0; x2 := 0; y2 := fb; x3 := 0; y3 := 0 |}.

(** Lines 452-458: [todo] bounds the number of passes, four are enough
    for [mult] to reach 25.6. *)
Fixpoint mult_loop (fuel : nat) (u : Q -> Q) (sc : Q) (todo : nat) (mult : Q)
    (b : bracket) : option bracket :=
  if Qlt_bool mult 11 then
    match todo with
    | O => None
    | S todo' =>
        match glob_min M u fuel (- mult * sc) (mult * sc) 15 false critlim b
        with
        | None => None
        | Some b' =>
            if Qlt_bool (y2 b') (y1 b') && Qlt_bool (y2 b') (y3 b')
            then Some b'
            else mult_loop fuel u sc todo' (mult * 4) b'
        end
    end
  else Some b.

Definition bracket_line (fuel : nat) (u : Q -> Q) (sc fb : Q) : option bracket :=
  mult_loop fuel u sc 4 (1 # 10) (start fb).

(** Lines 472-477. *)
Definition refine (cc : Z) (u : Q -> Q) (b : bracket) : Brent.result :=
  if negb (cc =? 0)%Z
  then Brent.brentmin M critlim tol (1 / ten_pow 7) u 40
         (x1 b) (x2 b) (x3 b) (y2 b)
  else Brent.brentmin M critlim (10 * tol) (1 / ten_pow 5) u 20
         (x1 b) (x2 b) (x3 b) (y2 b).

(** Line 478. *)
Definition smooth (t2 sc : Q) : Q :=
  fdiv M (Qabs t2) (inject_Z (Z.of_nat n))
  + (1 - fdiv M 1 (inject_Z (Z.of_nat n))) * sc.

(** Lines 459-468: the point and value kept when the line search already
    is below [critlim]. *)
Definition settle (base dir : list Q) (b : bracket) (fb : Q) : list Q * Q :=
  if Qlt_bool (y2 b) fb then (along base dir (x2 b), y2 b) else (base, fb).

(** Lines 448-486 for one direction: [inr] is the jump to FINISH. *)
Definition search_direction (fuel : nat) (cc : Z) (dir : list Q) (idir : nat)
    (w : walk) : option (walk + walk) :=
  let base := w_x w in
  let u := univar_crit base dir in
  match bracket_line fuel u (w_scale w) (w_fbest w) with
  | None => None
  | Some b =>
      if Qlt_bool (y2 b) critlim then
        let '(xf, ff) := settle base dir b (w_fbest w) in
        Some (inr {| w_x := xf; w_fbest := ff; w_scale := w_scale w;
                     delta := delta w; idelta := idelta w |})
      else
        let r := refine cc u b in
        let better := Qlt_bool (delta w) (w_fbest w - Brent.fval r) in
        Some (inl {| w_x := along base dir (Brent.xb r);
                     w_fbest := Brent.fval r;
                     w_scale := smooth (Brent.xb r) (w_scale w);
                     delta := if better then w_fbest w - Brent.fval r
                              else delta w;
                     idelta := if better then idir else idelta w |})
  end.

(** Lines 445-487; [todo] is [n - idir]. *)
Fixpoint directions (fuel : nat) (cc : Z) (d : list Q) (rep : Z)
    (todo idir : nat) (w : walk) : option (walk + walk) :=
  match todo with
  | O => Some (inl w)
  | S todo' =>
      if Nat.ltb 1 n && Nat.eqb idir 0 && (rep =? 0)%Z
      then directions fuel cc d rep todo' (S idir) w
      else
        match search_direction fuel cc (row n idir d) idir w with
        | None => None
        | Some (inr w') => Some (inr w')
        | Some (inl w') => directions fuel cc d rep todo' (S idir) w'
        end
  end.

(** Lines 522-524. *)
Definition replace_test (f0 ftest fval dl : Q) : bool :=
  let test := f0 - ftest - dl in
  let test := 2 * (f0 - 2 * ftest + fval) * test * test in
  Qlt_bool test (dl * (f0 - fval) * (f0 - fval)).

(** Lines 526-531. *)
Definition unit_length (p0 : list Q) : list Q :=
  map (fun v => fdiv M v (fsqrt M (sumsq p0))) p0.

(** Lines 439-569, one pass of the main loop after its exit tests:
    [inl] goes round again, [inr] leaves the loop. *)
Definition body (fuel : nat) (s : state) : option (state + state * exit) :=
  let cc := convergence_counter s in
  let f0 := fbest s in
  match directions fuel cc (direc s) (replaced s) n 0%nat
          {| w_x := x s; w_fbest := fbest s; w_scale := scale s;
             delta := - (1); idelta := 0%nat |} with
  | None => None
  | Some (inr w) =>
      Some (inr ({| x := w_x w; direc := direc s; fbest := w_fbest w;
                    prev_best := prev_best s; scale := w_scale w;
                    iter := iter s; convergence_counter := cc;
                    replaced := replaced s |}, LineCritlim))
  | Some (inl w) =>
      let p0 := vsub (w_x w) (x s) in
      let base := vadd (w_x w) p0 in
      let fval := criter base in
      let ftest := w_fbest w in
      let fb := if Qlt_bool fval ftest then fval else ftest in
      let xs := if Qlt_bool fval ftest then base else w_x w in
      if Qlt_bool fval f0 && replace_test f0 ftest fval (delta w) then
        let p0 := unit_length p0 in
        let u := univar_crit xs p0 in
        match bracket_line fuel u (w_scale w) fb with
        | None => None
        | Some b =>
            if Qlt_bool (y2 b) critlim then
              let '(xf, ff) := settle xs p0 b fb in
              Some (inr ({| x := xf; direc := direc s; fbest := ff;
                            prev_best := prev_best s; scale := w_scale w;
                            iter := iter s; convergence_counter := cc;
                            replaced := Z.of_nat (idelta w) |},
                         ReplacementCritlim))
            else
              let r := refine cc u b in
              Some (inl {| x := along xs p0 (Brent.xb r);
                           direc := write_row n 0 n (idelta w) p0 (direc s);
                           fbest := Brent.fval r;
                           prev_best := prev_best s;
                           scale := smooth (Brent.xb r) (w_scale w);
                           iter := iter s; convergence_counter := cc;
                           replaced := Z.of_nat (idelta w) |})
        end
      else
        Some (inl {| x := xs; direc := direc s; fbest := fb;
                     prev_best := prev_best s; scale := w_scale w;
                     iter := iter s; convergence_counter := cc;
                     replaced := (-1)%Z |})
  end.

(** Line 407. *)
Definition cap_reached (it : Z) : bool :=
  (maxits <=? it)%Z && (0 <? maxits)%Z.

(** Lines 417-420. *)
Definition toler (pb : Q) : Q :=
  if Qle_bool (Qabs pb) 1 then tol else tol * Qabs pb.

(** Lines 407-429: the exit tests at the top of the main loop. *)
Definition head (s : state) : state + state * exit :=
  if cap_reached (iter s) then
    inr ({| x := x s; direc := direc s; fbest := fbest s;
            prev_best := prev_best s; scale := scale s;
            iter := (iter s + 1)%Z;
            convergence_counter := convergence_counter s;
            replaced := replaced s |}, Cap)
  else
    let s1 := {| x := x s; direc := direc s; fbest := fbest s;
                 prev_best := prev_best s; scale := scale s;
                 iter := (iter s + 1)%Z;
                 convergence_counter := convergence_counter s;
                 replaced := replaced s |} in
    if Qlt_bool (fbest s) critlim then inr (s1, Critlim)
    else
      let small := Qle_bool (prev_best s - fbest s) (toler (prev_best s)) in
      let cc := if small then (convergence_counter s + 1)%Z else 0%Z in
      if small && (2 <=? cc)%Z then
        inr ({| x := x s; direc := direc s; fbest := fbest s;
                prev_best := prev_best s; scale := scale s;
                iter := (iter s + 1)%Z; convergence_counter := cc;
                replaced := replaced s |}, Converged)
      else
        inl {| x := x s; direc := direc s; fbest := fbest s;
               prev_best := fbest s; scale := scale s;
               iter := (iter s + 1)%Z; convergence_counter := cc;
               replaced := replaced s |}.

(** A finished call: the state when the main loop is left, how it was
    left, and the states at the end of every pass through the loop body,
    oldest first. *)
Record run : Type := {
  final : state;
  reason : exit;
  passes : list state
}.

(** Lines 405-570. *)
Fixpoint main_loop (fuel : nat) (s : state) (done : list state) : option run :=
  match fuel with
  | O => None
  | S fuel' =>
      match head s with
      | inr (s', e) =>
          Some {| final := s'; reason := e; passes := rev done |}
      | inl s1 =>
          match body fuel s1 with
          | None => None
          | Some (inr (s', e)) =>
              Some {| final := s'; reason := e; passes := rev (s' :: done) |}
          | Some (inl s') => main_loop fuel' s' (s' :: done)
          end
      end
  end.

(** Lines 381-403. *)
Definition init (x0 : list Q) (ystart : Q) : state :=
  {| x := x0; direc := identity n; fbest := ystart;
     prev_best := ten_pow 60; scale := 2 # 10;
     iter := 0; convergence_counter := 0; replaced := (-1)%Z |}.

Definition powell (fuel : nat) (x0 : list Q) (ystart : Q) : option run :=
  main_loop fuel (init x0 ystart) [].

End Defs.
End Powell.

(** ** Inputs used to run the model *)

(** The square root of a rational to six decimal places, rounded down. *)
Definition sqrt6 (a : Q) : Q :=
  inject_Z (Z.sqrt (Qnum a * QDen a * 10 ^ 12)) / inject_Z (QDen a * 10 ^ 6).

(** An environment for running the model.  The quotient by zero is a
    large multiple of the numerator, which keeps its sign.  The runs below
    use linear spacing only, so [exp] and [log] are never called and are
    left as constants. *)
Definition run_libm : libm :=
  {| div0 := fun a => a * ten_pow 300;
     fexp := fun _ => 1;
     flog := fun _ => 0;
     fsqrt := sqrt6 |}.

Definition zero_bracket : GlobMin.bracket :=
  {| GlobMin.x1 := 0; GlobMin.y1 := 0; GlobMin.x2 := 0; GlobMin.y2 := 0;
     GlobMin.x3 := 0; GlobMin.y3 := 0 |}.

(** 1 up to the origin and 2 to the right of it. *)
Definition step_up (t : Q) : Q := if Qle_bool t 0 then 1 else 2.

(** (t - 3)^2, with the fraction reduced. *)
Definition parabola (t : Q) : Q := Qred ((t - 3) * (t - 3)).

(** The sum of the squares of the entries, with the fraction reduced. *)
Definition sum_squares (v : list Q) : Q := Qred (sumsq v).

(** A library whose exponential is replaced by a positive rational
    function (1 - t + t^2, reduced), on which training runs can be
    evaluated. *)
Definition quad_libm : libm :=
  {| div0 := fun a => a * ten_pow 300;
     fexp := fun t => Qred (1 - t + t * t);
     flog := fun _ => 0;
     fsqrt := sqrt6 |}.

(** Component models that answer 1 and -1 on two cases, whatever the
    weights they are trained with. *)
Definition fixed_predictions (imodel : nat) (dist : list Q) : list Q :=
  [1; - (1)].

(** 5 to the left of 1, 1 from there up to 2, and 3 from 2 on. *)
Definition dip (t : Q) : Q :=
  if Qlt_bool t 1 then 5 else if Qlt_bool t 2 then 1 else 3.




(** ** GLOB_MIN: the grid points the scan goes through *)

(** The abscissas of the passes made through the loop of lines 73-102,
    first pass first: one entry for every grid point whose value is
    obtained at lines 75-78 (by a call of the criterion, or from [*y2]
    for the first point when [npts] is negative).  The pass after which
    the test of line 95 holds is the last one. *)
Fixpoint scan_points (criter : Q -> Q) (log_space : bool) (critlim : Q)
    (know_first_point : bool) (rate : Q) (todo : nat) (i : Z)
    (s : GlobMin.scan) : list Q :=
  match todo with
  | O => []
  | S todo' =>
      let y := if negb (i =? 0)%Z || negb know_first_point
               then criter (GlobMin.cur_x s) else GlobMin.s_y2 s in
      let s1 := GlobMin.scan_point i y s in
      GlobMin.cur_x s ::
        (if GlobMin.good_enough critlim s1 then []
         else scan_points criter log_space critlim know_first_point rate
                todo' (i + 1) (GlobMin.advance log_space rate s1))
  end.

(** ** POWELL: the decrease along every direction of a pass *)




(** ** BRENTMIN: the abscissas at which the criterion is called *)

(** The arguments of the calls of line 297, first call first. *)
Fixpoint brent_points (M : libm) (critlim eps tol : Q) (criter : Q -> Q)
    (todo : nat) (iter : Z) (s : Brent.state) : list Q :=
  match todo with
  | O => []
  | S todo' =>
      if Brent.stop M critlim eps tol iter s then []
      else
        Brent.trial_point tol s (snd (Brent.next_trial M tol s))
        :: brent_points M critlim eps tol criter todo' (iter + 1)
             (Brent.step M tol criter s)
  end.

Definition brentmin_points (M : libm) (critlim eps tol : Q) (criter : Q -> Q)
    (itmax : Z) (xa0 xb0 xc0 y : Q) : list Q :=
  brent_points M critlim eps tol criter (Z.to_nat itmax) 0
    (Brent.init xa0 xb0 xc0 y).

(** ** ARCING: AdaBoostBinary, the caller of [glob_min] and [brentmin] *)

Module Arcing.

(** What the constructor leaves behind: the number of models kept, their
    [alpha] (one entry for each value assigned, in order), and the array
    [dist] as it is when the training loop is left. *)
Record trained : Type := {
  nmodels : Z;
  alpha : list Q;
  dist : list Q
}.

Section Defs.
Variable M : libm.

(** Lines 555-564; [local_dist] and [local_u] are the two lists. *)
Definition alpha_crit (dist u : list Q) (trial_alpha : Q) : Q :=
  fold_left (fun sum p => sum + fst p * fexp M (- trial_alpha * snd p))
            (combine dist u) 0.

(** Lines 625-628 and 700-703. *)
Definition hard_limit (h : Q) : Q :=
  let h1 := if Qlt_bool 1 h then 1 else h in
  if Qlt_bool h1 (- (1)) then - (1) else h1.

(** Lines 622-629: [u[i]] from the raw predictions [hs] and the true
    classes [ts] (the entry [tptr[nin]] of every case).  The arrays of
    [n] entries are lists, and the loops over [i < n] run over them. *)
Definition products (hs ts : list Q) : list Q :=
  map (fun p => hard_limit (fst p) * snd p) (combine hs ts).

(** Lines 630-633. *)
Definition ngood (u : list Q) : nat :=
  length (filter (fun v => Qlt_bool 0 v) u).

Definition nbad (u : list Q) : nat :=
  length (filter (fun v => Qlt_bool v 0) u).

(** The locals [x1 y1 x2 y2 x3 y3] of line 579 handed to [glob_min]; they
    are not initialised in the source. *)
Definition locals : GlobMin.bracket :=
  {| GlobMin.x1 := 0; GlobMin.y1 := 0; GlobMin.x2 := 0; GlobMin.y2 := 0;
     GlobMin.x3 := 0; GlobMin.y3 := 0 |}.

(** Lines 651-656: the bracket, then the refined [x2]. *)
Definition optimal_alpha (fuel : nat) (dist u : list Q) : option Q :=
  match GlobMin.glob_min M (alpha_crit dist u) fuel (- (1)) 1 3 false 0 locals
  with
  | None => None
  | Some b =>
      Some (Brent.xb
              (Brent.brentmin M 0 (1 / ten_pow 6) (1 / ten_pow 4)
                 (alpha_crit dist u) 20
                 (GlobMin.x1 b) (GlobMin.x2 b) (GlobMin.x3 b) (GlobMin.y2 b)))
  end.

(** Lines 662-666: the weights before rescaling. *)
Definition scaled (a : Q) (dist u : list Q) : list Q :=
  map (fun p => fst p * fexp M (- a * snd p)) (combine dist u).

Definition total (d : list Q) : Q :=
  fold_left (fun sum v => sum + v) d 0.

(** Lines 662-669. *)
Definition reweight (a : Q) (dist u : list Q) : list Q :=
  map (fun v => fdiv M v (total (scaled a dist u))) (scaled a dist u).

(** Lines 590-592. *)
Definition uniform (n : Z) : list Q :=
  repeat (fdiv M 1 (inject_Z n)) (Z.to_nat n).

(** The component models are not part of this file: [predict imodel dist]
    stands for the raw predictions, on the training cases, of model
    [imodel] trained with the weights [dist] (lines 600-607 and 624). *)
Variable predict : nat -> list Q -> list Q.

(** Lines 598-671; [todo] is [nmods - imodel]. *)
Fixpoint train_loop (fuel : nat) (n nmods : Z) (ts : list Q) (todo imodel : nat)
    (d : list Q) (al : list Q) : option trained :=
  match todo with
  | O => Some {| nmodels := nmods; alpha := al; dist := d |}
  | S todo' =>
      let u := products (predict imodel d) ts in
      if Nat.eqb (nbad u) 0 then
        Some {| nmodels := Z.of_nat imodel + 1;
                alpha := al ++ [(1 # 2) * flog M (inject_Z n)];
                dist := d |}
      else if Nat.eqb (ngood u) 0 then
        Some {| nmodels := Z.of_nat imodel; alpha := al; dist := d |}
      else
        match optimal_alpha fuel d u with
        | None => None
        | Some a =>
            train_loop fuel n nmods ts todo' (S imodel) (reweight a d u)
              (al ++ [a])
        end
  end.

(** Lines 570-675: [n] cases with true classes [ts], [nmods] models. *)
Definition train (fuel : nat) (n : Z) (ts : list Q) (nmods : Z)
    : option trained :=
  train_loop fuel n nmods ts (Z.to_nat nmods) 0 (uniform n) [].

(** Lines 689-712; [hs] holds the raw predictions of the models for the
    input, model 0 first. *)
Definition class_predict (nmods : Z) (al hs : list Q) : Z :=
  if (nmods =? 0)%Z then (-1)%Z
  else
    let sum :=
      fold_left (fun sum p => sum + fst p * hard_limit (snd p))
                (firstn (Z.to_nat nmods) (combine al hs)) 0 in
    if Qlt_bool 0 sum then 0%Z else 1%Z.

End Defs.
End Arcing.

(** ** Invariants and other predicates of the proofs *)

(** What holds of the scan locals of [glob_min] once [i >= 1] points are
    done. *)
Definition scanned (i : Z) (s : GlobMin.scan) : Prop :=
  (0 <= GlobMin.ibest s < i)%Z
  /\ GlobMin.s_y2 s <= GlobMin.previous s
  /\ ((0 < GlobMin.ibest s)%Z -> GlobMin.s_y2 s <= GlobMin.s_y1 s)
  /\ (GlobMin.turned_up s = true -> GlobMin.s_y2 s <= GlobMin.s_y3 s)
  /\ (GlobMin.turned_up s = false -> GlobMin.ibest s = (i - 1)%Z).

(** The scan locals on the constant criterion [c] once [i >= 1] points
    are done. *)
Definition flat_scanned (c : Q) (s : GlobMin.scan) : Prop :=
  GlobMin.ibest s = 0%Z /\ GlobMin.s_y2 s = c
  /\ (GlobMin.turned_up s = true -> GlobMin.s_y3 s = c).

(** The abscissa reached after [k] steps of an arithmetic scan. *)
Fixpoint grid (rate : Q) (k : nat) (t : Q) : Q :=
  match k with
  | O => t
  | S k' => grid rate k' (t + rate)
  end.

(** What [powell] needs of a bracket found for the criterion [u]: its
    centre value is the criterion at its centre, and is at most [critlim]
    or at most the criterion at an abscissa equal to zero. *)
Definition no_worse (u : Q -> Q) (critlim : Q) (b : GlobMin.bracket) : Prop :=
  GlobMin.y2 b = u (GlobMin.x2 b)
  /\ (GlobMin.y2 b <= critlim \/ exists t, t == 0 /\ GlobMin.y2 b <= u t).

(** The state a pass through the body of the main loop ends in. *)
Definition after (o : Powell.state + Powell.state * Powell.exit)
    : Powell.state :=
  match o with inl s' => s' | inr (s', _) => s' end.

Definition either (o : Powell.walk + Powell.walk) : Powell.walk :=
  match o with inl w => w | inr w => w end.

(** A list of values none of which exceeds the one before it, [a] being
    the value before the first. *)
Fixpoint descending (a : Q) (l : list Q) : Prop :=
  match l with
  | [] => True
  | b :: l' => b <= a /\ descending b l'
  end.

(** The invariant of the loop over the directions; [top] is the best
    value when the pass through the main loop began. *)
Definition walk_ok (criter : list Q -> Q) (n : nat) (top : Q)
    (w : Powell.walk) : Prop :=
  Powell.w_fbest w == criter (Powell.w_x w)
  /\ length (Powell.w_x w) = n
  /\ Powell.w_fbest w <= top.

(** The invariant of the main loop. *)
Definition state_ok (criter : list Q -> Q) (n : nat) (s : Powell.state)
    : Prop :=
  Powell.fbest s == criter (Powell.x s)
  /\ length (Powell.x s) = n
  /\ length (Powell.direc s) = (n * n)%nat.

(** ** Predicates of the further proofs *)

(** Two states of the scan of [glob_min] that agree except, as long as
    [turned_up] is clear, on [*y3]. *)
Definition same_but_y3 (s s' : GlobMin.scan) : Prop :=
  GlobMin.cur_x s = GlobMin.cur_x s'
  /\ GlobMin.previous s = GlobMin.previous s'
  /\ GlobMin.ibest s = GlobMin.ibest s'
  /\ GlobMin.turned_up s = GlobMin.turned_up s'
  /\ GlobMin.s_y1 s = GlobMin.s_y1 s'
  /\ GlobMin.s_x2 s = GlobMin.s_x2 s'
  /\ GlobMin.s_y2 s = GlobMin.s_y2 s'
  /\ GlobMin.idx s = GlobMin.idx s'
  /\ GlobMin.broke s = GlobMin.broke s'
  /\ (GlobMin.turned_up s = true -> GlobMin.s_y3 s = GlobMin.s_y3 s').



(** * Proofs *)

(** ** Comparisons *)

Lemma Qlt_bool_iff (a b : Q) : Qlt_bool a b = true <-> a < b.
Proof.
  unfold Qlt_bool. rewrite negb_true_iff.
  split; intro H.
  - apply Qnot_le_lt. intro Hle. apply Qle_bool_iff in Hle. congruence.
  - destruct (Qle_bool b a) eqn:E; trivial.
    apply Qle_bool_iff in E. exfalso. exact (Qlt_not_le _ _ H E).
Qed.

Lemma Qlt_bool_false (a b : Q) : Qlt_bool a b = false <-> b <= a.
Proof.
  unfold Qlt_bool. rewrite negb_false_iff. apply Qle_bool_iff.
Qed.

Lemma Qle_bool_false (a b : Q) : Qle_bool a b = false <-> b < a.
Proof.
  rewrite <- Qlt_bool_iff. unfold Qlt_bool.
  destruct (Qle_bool a b); simpl; intuition congruence.
Qed.

Lemma Qeq_bool_false (a b : Q) : Qeq_bool a b = false <-> ~ a == b.
Proof.
  split.
  - apply Qeq_bool_neq.
  - intro H. destruct (Qeq_bool a b) eqn:E; trivial.
    apply Qeq_bool_iff in E. contradiction.
Qed.

(** Turn every boolean test in the context into the order fact it decides. *)
Ltac tests :=
  repeat match goal with
  | H : _ && _ = true |- _ => apply andb_true_iff in H; destruct H
  | H : _ || _ = false |- _ => apply orb_false_iff in H; destruct H
  | H : negb _ = true |- _ => apply negb_true_iff in H
  | H : negb _ = false |- _ => apply negb_false_iff in H
  | H : Qlt_bool _ _ = true |- _ => apply Qlt_bool_iff in H
  | H : Qlt_bool _ _ = false |- _ => apply Qlt_bool_false in H
  | H : Qle_bool _ _ = true |- _ => apply Qle_bool_iff in H
  | H : Qle_bool _ _ = false |- _ => apply Qle_bool_false in H
  | H : Qeq_bool _ _ = true |- _ => apply Qeq_bool_iff in H
  | H : Qeq_bool _ _ = false |- _ => apply Qeq_bool_false in H
  | H : (_ =? _)%Z = true |- _ => apply Z.eqb_eq in H
  | H : (_ =? _)%Z = false |- _ => apply Z.eqb_neq in H
  | H : (_ <? _)%Z = true |- _ => apply Z.ltb_lt in H
  | H : (_ <? _)%Z = false |- _ => apply Z.ltb_ge in H
  | H : (_ <=? _)%Z = true |- _ => apply Z.leb_le in H
  | H : (_ <=? _)%Z = false |- _ => apply Z.leb_gt in H
  end.

(** ** GLOB_MIN: the centre is least *)

Section GlobMinFacts.
Import GlobMin.
Variable M : libm.
Variable criter : Q -> Q.

Lemma scanned_point (i : Z) (y : Q) (s : scan) :
  (i = 0%Z \/ (1 <= i)%Z /\ scanned i s) ->
  scanned (i + 1) (scan_point i y s).
Proof.
  intros Hi. unfold scan_point.
  destruct ((i =? 0)%Z || Qlt_bool y (s_y2 s)) eqn:E.
  - unfold scanned; simpl.
    repeat split; try lia; try lra; try discriminate.
    intro Hpos. destruct Hi as [-> | [Hi (_ & Hp & _)]]; [lia|].
    apply orb_true_iff in E. destruct E as [E | E]; tests; [lia | lra].
  - tests. destruct Hi as [-> | [Hi (Hb & Hp & H1 & H3 & Ht)]]; [lia|].
    destruct (i =? ibest s + 1)%Z eqn:E2; tests.
    + unfold scanned; simpl. repeat split; try lia; try lra; auto; discriminate.
    + unfold scanned; simpl. repeat split; try lia; try lra; auto.
      intro Hf. specialize (Ht Hf). lia.
Qed.

Lemma scanned_loop (ls : bool) (critlim : Q) (kfp : bool) (rate : Q)
    (todo : nat) (i : Z) (s : scan) :
  (i = 0%Z /\ (1 <= todo)%nat \/ (1 <= i)%Z /\ scanned i s) ->
  scanned (i + Z.of_nat todo) (scan_loop criter ls critlim kfp rate todo i s).
Proof.
  revert i s. induction todo as [|todo IH]; intros i s Hi.
  - destruct Hi as [[_ ?] | [Hi Hs]]; [lia|].
    simpl. replace (i + 0)%Z with i by lia. exact Hs.
  - cbn [scan_loop].
    set (y := if negb (i =? 0)%Z || negb kfp then criter (cur_x s) else s_y2 s).
    assert (Hp : scanned (i + 1) (scan_point i y s)).
    { apply scanned_point. destruct Hi as [[? _] | ?]; auto. }
    destruct (good_enough critlim (scan_point i y s)) eqn:G.
    + unfold good_enough in G.
      destruct Hp as (Hb & Hp & Hy1 & Hy3 & Ht). tests.
      unfold scanned; simpl. repeat split; try lia; auto.
      intro Hf. congruence.
    + replace (i + Z.of_nat (S todo))%Z with ((i + 1) + Z.of_nat todo)%Z by lia.
      apply IH. right. split; [destruct Hi as [[? _] | [? _]]; lia|].
      exact Hp.
Qed.

Lemma extend_right_least (fuel : nat) (ls : bool) (rate : Q) (b b' : bracket) :
  y2 b <= y1 b ->
  extend_right criter fuel ls rate b = Some b' ->
  y2 b' <= y1 b' /\ y2 b' <= y3 b'.
Proof.
  revert rate b. induction fuel as [|fuel IH]; intros rate b H1 H; [discriminate|].
  cbn [extend_right] in H.
  destruct (Qlt_bool (y2 b) (criter (x3 b))) eqn:E1.
  - inversion H; subst; simpl. tests. split; lra.
  - destruct (Qeq_bool (y1 b) (y2 b) && Qeq_bool (y2 b) (criter (x3 b))) eqn:E2.
    + inversion H; subst; simpl. tests. split; lra.
    + apply IH in H; auto. simpl. tests. lra.
Qed.

Lemma extend_left_least (fuel : nat) (ls : bool) (rate : Q) (b b' : bracket) :
  y2 b <= y3 b ->
  extend_left M criter fuel ls rate b = Some b' ->
  y2 b' <= y1 b' /\ y2 b' <= y3 b'.
Proof.
  revert rate b. induction fuel as [|fuel IH]; intros rate b H3 H; [discriminate|].
  cbn [extend_left] in H.
  destruct (Qlt_bool (y2 b) (criter (x1 b))) eqn:E1.
  - inversion H; subst; simpl. tests. split; lra.
  - destruct (Qeq_bool (criter (x1 b)) (y2 b) && Qeq_bool (y2 b) (y3 b)) eqn:E2.
    + inversion H; subst; simpl. tests. split; lra.
    + apply IH in H; auto. simpl. tests. lra.
Qed.

(** C1 (as amended): with at least two grid points, a call of [glob_min]
    that returns gives a centre value [y2] no greater than [y1] and no
    greater than [y3], whatever the criterion, the bounds, the spacing
    mode and [critlim]. *)
Theorem glob_min_centre_least (fuel : nat) (low high : Q) (npts : Z)
    (log_space : bool) (critlim : Q) (b0 b : bracket) :
  (2 <= npts)%Z ->
  glob_min M criter fuel low high npts log_space critlim b0 = Some b ->
  y2 b <= y1 b /\ y2 b <= y3 b.
Proof.
  intros Hn H. unfold glob_min, run_scan in H.
  assert (Hneg : (npts <? 0)%Z = false) by (apply Z.ltb_ge; lia).
  rewrite Hneg in H.
  set (rate := grid_rate M log_space low high npts) in *.
  pose proof (scanned_loop log_space critlim false rate (Z.to_nat npts) 0
                (init_scan low b0)) as Hs.
  set (s := scan_loop criter log_space critlim false rate (Z.to_nat npts) 0
              (init_scan low b0)) in *.
  assert (Hs' : scanned npts s).
  { replace npts with (0 + Z.of_nat (Z.to_nat npts))%Z at 1 by lia.
    apply Hs. left. split; lia. }
  destruct Hs' as (Hb & Hp & H1 & H3 & Ht).
  destruct (turned_up s) eqn:T; simpl in H.
  - destruct (ibest s =? 0)%Z eqn:B.
    + eapply extend_left_least; [|exact H]. simpl. auto.
    + inversion H; subst; simpl. tests. split; [apply H1; lia | auto].
  - eapply extend_right_least; [|exact H]. simpl.
    apply H1. specialize (Ht eq_refl). lia.
Qed.

End GlobMinFacts.

Lemma glob_min_centre_least_witness :
  (2 <= 6)%Z /\
  exists b,
    GlobMin.glob_min run_libm parabola 10 0 5 6 false (- (1000)) zero_bracket
      = Some b
    /\ GlobMin.y2 b <= GlobMin.y1 b /\ GlobMin.y2 b <= GlobMin.y3 b.
Proof.
  split; [lia|].
  eexists. split; [vm_compute; reflexivity|].
  apply (glob_min_centre_least run_libm parabola 10 0 5 6 false (- (1000))
           zero_bracket); [lia | vm_compute; reflexivity].
Defined.

(** C1 as stated fails for [npts = 1]: the only grid point is the best
    one, [*y1] keeps the initial [previous = 0.0], and the extension to
    the right stops as soon as the criterion rises. *)
Lemma glob_min_single_point_counterexample :
  exists b,
    GlobMin.glob_min run_libm step_up 20 0 1 1 false (- (1000)) zero_bracket
      = Some b
    /\ ~ GlobMin.y2 b <= GlobMin.y1 b.
Proof.
  eexists. split; [vm_compute; reflexivity|].
  intro H. vm_compute in H. apply H. reflexivity.
Defined.

(** ** GLOB_MIN: leaving the scan early *)

Section ScanFacts.
Import GlobMin.
Variable criter : Q -> Q.
Variables (ls : bool) (critlim : Q) (kfp : bool) (rate : Q).

Lemma good_enough_leave (s : scan) (i : Z) (b : bool) :
  good_enough critlim (leave s i b) = good_enough critlim s.
Proof. reflexivity. Qed.

Lemma good_enough_advance (s : scan) :
  good_enough critlim (advance ls rate s) = good_enough critlim s.
Proof. reflexivity. Qed.

Lemma scan_loop_exit (todo : nat) (i : Z) (s : scan) :
  good_enough critlim s = false ->
  let s' := scan_loop criter ls critlim kfp rate todo i s in
  (broke s' = true <-> good_enough critlim s' = true)
  /\ (broke s' = false -> idx s' = (i + Z.of_nat todo)%Z)
  /\ (broke s' = true -> (i <= idx s' < i + Z.of_nat todo)%Z).
Proof.
  revert i s. induction todo as [|todo IH]; intros i s Hs.
  - cbn [scan_loop]. rewrite good_enough_leave, Hs. simpl.
    repeat split; try discriminate; intros; lia.
  - cbn [scan_loop].
    set (y := if negb (i =? 0)%Z || negb kfp then criter (cur_x s) else s_y2 s).
    destruct (good_enough critlim (scan_point i y s)) eqn:G.
    + rewrite good_enough_leave, G. simpl.
      repeat split; try discriminate; intros; lia.
    + specialize (IH (i + 1)%Z (advance ls rate (scan_point i y s))).
      rewrite good_enough_advance in IH. specialize (IH G).
      destruct IH as (IH1 & IH2 & IH3).
      split; [exact IH1|]. split; intro Hb.
      * rewrite (IH2 Hb). lia.
      * specialize (IH3 Hb). lia.
Qed.

Lemma scan_loop_prefix (k : nat) (i : Z) (s : scan) (N : nat) :
  broke (scan_loop criter ls critlim kfp rate k i s) = true ->
  (k <= N)%nat ->
  scan_loop criter ls critlim kfp rate N i s
  = scan_loop criter ls critlim kfp rate k i s.
Proof.
  revert i s N. induction k as [|k IH]; intros i s N Hb Hk.
  - discriminate.
  - destruct N as [|N]; [lia|].
    cbn [scan_loop] in *.
    set (y := if negb (i =? 0)%Z || negb kfp then criter (cur_x s) else s_y2 s)
      in *.
    destruct (good_enough critlim (scan_point i y s)); [reflexivity|].
    apply IH; [exact Hb | lia].
Qed.

Lemma scan_loop_break_point (todo : nat) (i : Z) (s : scan) :
  broke (scan_loop criter ls critlim kfp rate todo i s) = true ->
  exists k, (k < todo)%nat
    /\ scan_loop criter ls critlim kfp rate (S k) i s
       = scan_loop criter ls critlim kfp rate todo i s.
Proof.
  revert i s. induction todo as [|todo IH]; intros i s Hb.
  - discriminate.
  - cbn [scan_loop] in Hb.
    set (y := if negb (i =? 0)%Z || negb kfp then criter (cur_x s) else s_y2 s)
      in *.
    destruct (good_enough critlim (scan_point i y s)) eqn:G.
    + exists 0%nat. split; [lia|]. cbn [scan_loop]. fold y. rewrite G.
      reflexivity.
    + destruct (IH _ _ Hb) as (k & Hk & E).
      exists (S k). split; [lia|].
      cbn [scan_loop] in *. fold y. rewrite G. exact E.
Qed.

(** The loop is left through [break] exactly when, where it stops, the
    best value is at or below [critlim], the best point is not the first
    one and [turned_up] is set; the counter then is that of a grid
    point. *)
Lemma scan_loop_broke_iff (low : Q) (b0 : bracket) (npts : nat) :
  let run k := scan_loop criter ls critlim kfp rate k 0 (init_scan low b0) in
  (broke (run npts) = true <->
     s_y2 (run npts) <= critlim /\ (0 < ibest (run npts))%Z
     /\ turned_up (run npts) = true)
  /\ (broke (run npts) = true <->
        exists k, (k < npts)%nat /\ good_enough critlim (run (S k)) = true)
  /\ (broke (run npts) = false -> idx (run npts) = Z.of_nat npts)
  /\ (broke (run npts) = true -> (0 <= idx (run npts) < Z.of_nat npts)%Z).
Proof.
  intro run.
  assert (H0 : good_enough critlim (init_scan low b0) = false).
  { unfold good_enough, init_scan; simpl. apply andb_false_r. }
  pose proof (scan_loop_exit npts 0 (init_scan low b0) H0) as (E1 & E2 & E3).
  fold (run npts) in E1, E2, E3.
  split; [|split; [|split]].
  - rewrite E1. unfold good_enough.
    rewrite !andb_true_iff, Qle_bool_iff, Z.ltb_lt. tauto.
  - split.
    + intro Hb. destruct (scan_loop_break_point npts 0 _ Hb) as (k & Hk & E).
      exists k. split; [exact Hk|].
      unfold run. rewrite E. apply E1. exact Hb.
    + intros (k & Hk & G).
      pose proof (scan_loop_exit (S k) 0 (init_scan low b0) H0) as (F1 & _).
      apply F1 in G.
      unfold run. rewrite (scan_loop_prefix (S k) 0 _ npts G); [exact G | lia].
  - intro Hb. rewrite (E2 Hb). lia.
  - intro Hb. specialize (E3 Hb). lia.
Qed.

Lemma scan_loop_one_more (k : nat) (i : Z) (s : scan) :
  let y := if negb (i =? 0)%Z || negb kfp then criter (cur_x s) else s_y2 s in
  good_enough critlim (scan_point i y s) = false ->
  scan_loop criter ls critlim kfp rate (S k) i s
  = scan_loop criter ls critlim kfp rate k (i + 1)
      (advance ls rate (scan_point i y s)).
Proof.
  intros y G. cbn [scan_loop]. fold y. rewrite G. reflexivity.
Qed.

(** The number of grid points gone through is the number of the first
    point after which the test of line 95 holds, or [todo] when there is
    none before the last. *)
Lemma scan_points_first (todo : nat) (i : Z) (s : scan) :
  let seen := length (scan_points criter ls critlim kfp rate todo i s) in
  (seen <= todo)%nat
  /\ (forall k, (1 <= k < seen)%nat ->
        good_enough critlim (scan_loop criter ls critlim kfp rate k i s)
        = false)
  /\ ((seen < todo)%nat ->
      (1 <= seen)%nat
      /\ good_enough critlim (scan_loop criter ls critlim kfp rate seen i s)
         = true).
Proof.
  revert i s. induction todo as [|todo IH]; intros i s.
  - simpl. split; [lia|]. split; intros; lia.
  - cbn [scan_points].
    set (y := if negb (i =? 0)%Z || negb kfp then criter (cur_x s) else s_y2 s).
    destruct (good_enough critlim (scan_point i y s)) eqn:G.
    + cbn [length]. split; [lia|]. split; [intros; lia|].
      intros _. split; [lia|].
      cbn [scan_loop]. fold y. rewrite G. rewrite good_enough_leave. exact G.
    + cbn [length].
      destruct (IH (i + 1)%Z (advance ls rate (scan_point i y s)))
        as (A & B & C).
      split; [lia|]. split.
      * intros k Hk. destruct k as [|k]; [lia|].
        rewrite (scan_loop_one_more k i s G).
        destruct k as [|k].
        -- cbn [scan_loop]. rewrite good_enough_leave, good_enough_advance.
           exact G.
        -- apply B. lia.
      * intro Hlt. split; [lia|].
        rewrite (scan_loop_one_more _ i s G).
        apply C. lia.
Qed.

(** C5 (as amended): the grid scan stops before all [npts] points have
    been gone through exactly when, after some point other than the last,
    the best value so far is at or below [critlim], the best point is not
    the first one and [turned_up] is set; it stops at the first point
    after which the three facts hold, and not before.  [run k] is the
    scan after its first [k] points, or where it stopped if that was
    earlier. *)
Theorem scan_stops_early_iff (low : Q) (b0 : bracket) (npts : nat) :
  let run k := scan_loop criter ls critlim kfp rate k 0 (init_scan low b0) in
  let seen :=
    length (scan_points criter ls critlim kfp rate npts 0 (init_scan low b0)) in
  let met s :=
    s_y2 s <= critlim /\ (0 < ibest s)%Z /\ turned_up s = true in
  (seen <= npts)%nat
  /\ ((seen < npts)%nat <->
      exists k, (S k < npts)%nat /\ met (run (S k)))
  /\ (forall k, (1 <= k < seen)%nat -> ~ met (run k))
  /\ ((seen < npts)%nat -> (1 <= seen)%nat /\ met (run seen)).
Proof.
  intros run seen met.
  assert (Hm : forall s, met s <-> good_enough critlim s = true).
  { intro s. unfold met, good_enough.
    rewrite !andb_true_iff, Qle_bool_iff, Z.ltb_lt. tauto. }
  destruct (scan_points_first npts 0 (init_scan low b0)) as (A & B & C).
  fold seen in A, B, C.
  split; [exact A|]. split; [|split].
  - split.
    + intro Hlt. destruct (C Hlt) as [H1 G].
      exists (seen - 1)%nat. replace (S (seen - 1)) with seen by lia.
      split; [exact Hlt | apply Hm; exact G].
    + intros (k & Hk & G). apply Hm in G. unfold run in G.
      destruct (Nat.lt_ge_cases (S k) seen) as [Hlt | Hge]; [|lia].
      rewrite (B (S k)) in G by lia. discriminate.
  - intros k Hk G. apply Hm in G. unfold run in G.
    rewrite (B k Hk) in G. discriminate.
  - intro Hlt. destruct (C Hlt) as [H1 G].
    split; [exact H1 | apply Hm; exact G].
Qed.

End ScanFacts.

Lemma scan_stops_early_iff_witness :
  let rate := GlobMin.grid_rate run_libm false 0 4 5 in
  let run k :=
    GlobMin.scan_loop dip false 2 false rate k 0
      (GlobMin.init_scan 0 zero_bracket) in
  (exists k, (S k < 5)%nat
     /\ GlobMin.s_y2 (run (S k)) <= 2 /\ (0 < GlobMin.ibest (run (S k)))%Z
     /\ GlobMin.turned_up (run (S k)) = true)
  /\ (length (scan_points dip false 2 false rate 5 0
                 (GlobMin.init_scan 0 zero_bracket)) < 5)%nat.
Proof.
  intros rate run.
  assert (H : exists k, (S k < 5)%nat
                /\ GlobMin.s_y2 (run (S k)) <= 2
                /\ (0 < GlobMin.ibest (run (S k)))%Z
                /\ GlobMin.turned_up (run (S k)) = true).
  { exists 2%nat. split; [lia|]. split; [|split]; vm_compute; try reflexivity.
    discriminate. }
  split; [exact H|].
  apply (proj1 (proj2 (scan_stops_early_iff dip false 2 false rate 0
                         zero_bracket 5))).
  exact H.
Defined.

(** C5 as stated fails when the three facts first hold after the last
    grid point: on the values 5, 1, 3 with [critlim = 2] the best value 1
    is below [critlim], the best point is the second one and the third
    did not improve, yet all three points have been gone through. *)
Lemma scan_last_point_counterexample :
  let rate := GlobMin.grid_rate run_libm false 0 2 3 in
  let s := GlobMin.run_scan run_libm dip 0 2 3 false 2 zero_bracket in
  map dip (scan_points dip false 2 false rate 3 0
             (GlobMin.init_scan 0 zero_bracket)) = [5; 1; 3]
  /\ (GlobMin.s_y2 s <= 2 /\ (0 < GlobMin.ibest s)%Z
      /\ GlobMin.turned_up s = true)
  /\ length (scan_points dip false 2 false rate 3 0
               (GlobMin.init_scan 0 zero_bracket)) = 3%nat.
Proof.
  intros rate s.
  split; [vm_compute; reflexivity|]. split.
  - split; [|split]; vm_compute; try reflexivity. discriminate.
  - vm_compute. reflexivity.
Defined.

(** ** Flat criteria *)

Lemma Qlt_bool_irrefl (c : Q) : Qlt_bool c c = false.
Proof. apply Qlt_bool_false. apply Qle_refl. Qed.

Section Flat.
Import GlobMin.
Variable M : libm.
Variable c : Q.

Local Abbreviation flat := (fun _ : Q => c).

Lemma extend_right_flat_returns (k : nat) (ls : bool) (rate : Q) (b : bracket) :
  exists b', extend_right flat (3 + k) ls rate b = Some b'.
Proof.
  cbn [extend_right plus]. cbv beta.
  destruct (Qlt_bool (y2 b) c); eauto.
  destruct (Qeq_bool (y1 b) (y2 b) && Qeq_bool (y2 b) c); eauto.
  cbn [y1 y2 y3 x1 x2 x3]. rewrite ?Qlt_bool_irrefl.
  destruct (Qeq_bool (y2 b) c && Qeq_bool c c); eauto.
  cbn [y1 y2 y3 x1 x2 x3]. rewrite ?Qlt_bool_irrefl, ?Qeq_bool_refl. simpl.
  eauto.
Qed.

Lemma extend_left_flat_returns (k : nat) (ls : bool) (rate : Q) (b : bracket) :
  exists b', extend_left M flat (3 + k) ls rate b = Some b'.
Proof.
  cbn [extend_left plus]. cbv beta.
  destruct (Qlt_bool (y2 b) c); eauto.
  destruct (Qeq_bool c (y2 b) && Qeq_bool (y2 b) (y3 b)); eauto.
  cbn [y1 y2 y3 x1 x2 x3]. rewrite ?Qlt_bool_irrefl.
  destruct (Qeq_bool c c && Qeq_bool c (y2 b)); eauto.
  cbn [y1 y2 y3 x1 x2 x3]. rewrite ?Qlt_bool_irrefl, ?Qeq_bool_refl. simpl.
  eauto.
Qed.

Lemma extend_right_flat_equal (fuel : nat) (ls : bool) (rate : Q)
    (b b' : bracket) :
  y2 b = c ->
  extend_right flat fuel ls rate b = Some b' ->
  y1 b' == y2 b' /\ y2 b' == y3 b'.
Proof.
  revert rate b. induction fuel as [|fuel IH]; intros rate b Hc H; [discriminate|].
  cbn [extend_right] in H. cbv beta in H. rewrite Hc, Qlt_bool_irrefl in H.
  destruct (Qeq_bool (y1 b) c && Qeq_bool c c) eqn:E.
  - injection H as Hb. rewrite <- Hb. simpl. tests.
    split; [assumption | reflexivity].
  - apply IH in H; auto.
Qed.

Lemma flat_scan_loop (ls : bool) (critlim rate : Q) (todo : nat) (i : Z)
    (s : scan) :
  (i = 0%Z /\ (1 <= todo)%nat \/ (1 <= i)%Z /\ flat_scanned c s) ->
  flat_scanned c (scan_loop flat ls critlim false rate todo i s).
Proof.
  revert i s. induction todo as [|todo IH]; intros i s Hi.
  - destruct Hi as [[_ ?] | [_ Hs]]; [lia | exact Hs].
  - cbn [scan_loop]. rewrite orb_true_r. cbv beta.
    assert (Hp : flat_scanned c (scan_point i c s)).
    { unfold scan_point.
      destruct Hi as [[-> _] | [Hi (Hb & Hy & H3)]].
      - simpl. unfold flat_scanned; simpl. repeat split. discriminate.
      - replace ((i =? 0)%Z) with false by (symmetry; apply Z.eqb_neq; lia).
        rewrite Hy, Qlt_bool_irrefl. simpl.
        destruct (i =? ibest s + 1)%Z; unfold flat_scanned; simpl; auto. }
    destruct (good_enough critlim (scan_point i c s)).
    + exact Hp.
    + apply IH. right. split; [destruct Hi as [[? _] | [? _]]; lia | exact Hp].
Qed.

Lemma glob_min_flat_returns (k : nat) (low high : Q) (npts : Z) (ls : bool)
    (critlim : Q) (b0 : bracket) :
  exists b, glob_min M flat (3 + k) low high npts ls critlim b0 = Some b.
Proof.
  unfold glob_min.
  destruct (negb (turned_up (run_scan M flat low high npts ls critlim b0))).
  - apply extend_right_flat_returns.
  - destruct (ibest (run_scan M flat low high npts ls critlim b0) =? 0)%Z.
    + apply extend_left_flat_returns.
    + eauto.
Qed.

Lemma glob_min_flat_equal (fuel : nat) (low high : Q) (npts : Z) (ls : bool)
    (critlim : Q) (b0 b : bracket) :
  (1 <= npts)%Z ->
  glob_min M flat fuel low high npts ls critlim b0 = Some b ->
  y1 b == y2 b /\ y2 b == y3 b.
Proof.
  intros Hn H. unfold glob_min, run_scan in H.
  assert (Hneg : (npts <? 0)%Z = false) by (apply Z.ltb_ge; lia).
  rewrite Hneg in H.
  set (rate := grid_rate M ls low high npts) in *.
  pose proof (flat_scan_loop ls critlim rate (Z.to_nat npts) 0
                (init_scan low b0)) as Hs.
  set (s := scan_loop flat ls critlim false rate (Z.to_nat npts) 0
              (init_scan low b0)) in *.
  destruct Hs as (Hb & Hy & H3); [left; split; lia|].
  destruct (turned_up s) eqn:T; simpl in H.
  - rewrite Hb in H. simpl in H.
    destruct fuel as [|fuel]; [discriminate|].
    cbn [extend_left] in H. simpl in H. cbv beta in H.
    rewrite Hy, (H3 eq_refl), Qlt_bool_irrefl, Qeq_bool_refl in H. simpl in H.
    injection H as Hr. rewrite <- Hr. simpl. split; reflexivity.
  - eapply extend_right_flat_equal; [|exact H]. exact Hy.
Qed.

End Flat.

(** ** BRENTMIN: the iteration cap *)

Section BrentCap.
Import Brent.
Variable M : libm.
Variables critlim eps tol : Q.
Variable criter : Q -> Q.

Lemma loop_iters (todo : nat) (iter : Z) (s : state) :
  (iter <= snd (loop M critlim eps tol criter todo iter s)
        <= iter + Z.of_nat todo)%Z.
Proof.
  revert iter s. induction todo as [|todo IH]; intros iter s.
  - simpl. lia.
  - cbn [loop]. destruct (stop M critlim eps tol iter s).
    + simpl. lia.
    + specialize (IH (iter + 1)%Z (step M tol criter s)). lia.
Qed.

Lemma brentmin_iters (itmax : Z) (xa0 xb0 xc0 y : Q) :
  (0 <= iters (brentmin M critlim eps tol criter itmax xa0 xb0 xc0 y)
     <= Z.max 0 itmax)%Z.
Proof.
  unfold brentmin.
  pose proof (loop_iters (Z.to_nat itmax) 0 (init xa0 xb0 xc0 y)) as H.
  destruct (loop M critlim eps tol criter (Z.to_nat itmax) 0
              (init xa0 xb0 xc0 y)) as [s n].
  simpl in *. lia.
Qed.

End BrentCap.

(** C7: on a constant criterion [glob_min] returns once each extension
    loop has had three passes, whatever its arguments; with [npts >= 1]
    it leaves through the test that the three tracked values are equal.
    [brentmin] makes at most [itmax] passes (none when [itmax <= 0]). *)
Theorem flat_criterion_terminates (M : libm) (c : Q) (k : nat)
    (low high : Q) (npts : Z) (log_space : bool) (critlim : Q)
    (b0 : GlobMin.bracket) (eps tol : Q) (itmax : Z) (xa0 xb0 xc0 y : Q) :
  (exists b,
      GlobMin.glob_min M (fun _ => c) (3 + k) low high npts log_space critlim b0
        = Some b
      /\ ((1 <= npts)%Z ->
          GlobMin.y1 b == GlobMin.y2 b /\ GlobMin.y2 b == GlobMin.y3 b))
  /\ (0 <= Brent.iters
             (Brent.brentmin M critlim eps tol (fun _ => c) itmax xa0 xb0 xc0 y)
        <= Z.max 0 itmax)%Z.
Proof.
  split.
  - destruct (glob_min_flat_returns M c k low high npts log_space critlim b0)
      as [b Hb].
    exists b. split; [exact Hb|].
    intro Hn. exact (glob_min_flat_equal M c _ _ _ _ _ _ _ _ Hn Hb).
  - apply brentmin_iters.
Qed.

Lemma flat_criterion_terminates_witness :
  (exists b,
      GlobMin.glob_min run_libm (fun _ => 5) (3 + 0) 0 1 4 false (- (1000))
        zero_bracket = Some b
      /\ GlobMin.y1 b == GlobMin.y2 b /\ GlobMin.y2 b == GlobMin.y3 b)
  /\ (0 <= Brent.iters
             (Brent.brentmin run_libm (- (1000)) (1 # 100000) (1 # 1000)
                (fun _ => 5) 10 0 2 5 5)%Q
        <= Z.max 0 10)%Z.
Proof.
  destruct (flat_criterion_terminates run_libm 5 0 0 1 4 false (- (1000))
              zero_bracket (1 # 100000) (1 # 1000) 10 0 2 5 5)
    as [[b [Hb He]] Hi].
  split; [|exact Hi].
  exists b. split; [exact Hb|]. apply He. lia.
Defined.

(** ** BRENTMIN: the bracket only narrows *)

Lemma Qabs_cases (a : Q) :
  (0 <= a /\ Qabs a == a) \/ (a <= 0 /\ Qabs a == - a).
Proof.
  destruct (Qlt_le_dec a 0) as [H | H].
  - right. split; [lra|]. apply Qabs_neg. lra.
  - left. split; [exact H|]. apply Qabs_pos. exact H.
Qed.

(** Replace [Qabs a] by a fresh number known to be [a] or [- a]. *)
Ltac absolute a :=
  let v := fresh "v" in
  let Hv := fresh "Hv" in
  let E := fresh "E" in
  pose proof (Qabs_cases a) as Hv;
  remember (Qabs a) as v eqn:E in *; clear E;
  destruct Hv as [[? ?] | [? ?]].

Section BrentBracket.
Import Brent.
Variable M : libm.
Variables critlim eps tol : Q.
Variable criter : Q -> Q.

Lemma insert_narrows (s : state) (m t tx ty : Q) :
  xleft s <= x0 s <= xright s ->
  xleft s <= tx <= xright s ->
  xleft s <= xleft (insert s m t tx ty)
  /\ xleft (insert s m t tx ty) <= x0 (insert s m t tx ty)
  /\ x0 (insert s m t tx ty) <= xright (insert s m t tx ty)
  /\ xright (insert s m t tx ty) <= xright s.
Proof.
  intros [H1 H2] [H3 H4]. unfold insert.
  destruct (Qle_bool ty (y0 s)).
  - simpl. destruct (Qlt_bool tx (x0 s)) eqn:E; tests; repeat split; lra.
  - destruct (Qle_bool (x0 s) tx) eqn:E;
      destruct (Qle_bool ty (y1 s) || Qeq_bool (x1 s) (x0 s));
      try destruct (Qle_bool ty (y2 s) || Qeq_bool (x2 s) (x0 s)
                    || Qeq_bool (x2 s) (x1 s));
      simpl; tests; repeat split; lra.
Qed.

Lemma trial_point_inside (s : state) :
  xleft s <= x0 s <= xright s ->
  converged tol s = false ->
  xleft s <= trial_point tol s (snd (next_trial M tol s)) <= xright s.
Proof.
  intros [H1 H2] Hc.
  unfold converged, small_dist in Hc.
  unfold next_trial, golden, golden_movement.
  set (t := parabolic M s).
  destruct (moving tol s);
    [destruct (usable s t) eqn:U; [destruct (too_close tol s t) eqn:C|]|].
  all: destruct (Qlt_bool (x0 s) (xmid s)) eqn:X; cbn [fst snd].
  all: unfold trial_point.
  all: repeat match goal with
       | |- context [if ?b then _ else _] =>
           let E := fresh "E" in destruct b eqn:E
       end.
  all: unfold usable, too_close, small_dist, xmid, golden_ratio in *.
  all: set (ss := small_step tol s) in *.
  all: repeat match goal with
       | H : _ || _ = true |- _ => apply orb_true_iff in H; destruct H
       end.
  all: tests.
  all: repeat match goal with
       | H : context [Qabs ?a] |- _ => absolute a
       | |- context [Qabs ?a] => absolute a
       end.
  all: lra.
Qed.

Lemma step_narrows (s : state) :
  xleft s <= x0 s <= xright s ->
  converged tol s = false ->
  xleft s <= xleft (step M tol criter s)
  /\ xleft (step M tol criter s) <= x0 (step M tol criter s)
  /\ x0 (step M tol criter s) <= xright (step M tol criter s)
  /\ xright (step M tol criter s) <= xright s.
Proof.
  intros Hs Hc. unfold step.
  pose proof (trial_point_inside s Hs Hc) as Ht.
  destruct (next_trial M tol s) as [m t]. simpl in Ht.
  apply insert_narrows; assumption.
Qed.

Lemma loop_narrows (lo hi : Q) (todo : nat) (iter : Z) (s : state) :
  lo <= xleft s -> xleft s <= x0 s <= xright s -> xright s <= hi ->
  let s' := fst (loop M critlim eps tol criter todo iter s) in
  lo <= xleft s' /\ xleft s' <= x0 s' <= xright s' /\ xright s' <= hi.
Proof.
  revert iter s. induction todo as [|todo IH]; intros iter s Hlo Hs Hhi.
  - simpl. auto.
  - cbn [loop]. destruct (stop M critlim eps tol iter s) eqn:E.
    + simpl. auto.
    + unfold stop in E. tests.
      destruct (step_narrows s Hs) as (A & B & C & D); [assumption|].
      apply IH; [lra | split; assumption | lra].
Qed.

(** C8: called on [xa < xb < xc], [brentmin] never moves an end of the
    bracket outwards, and the abscissa it returns lies in the bracket it
    returns.  (The values at the three points play no part.) *)
Theorem brentmin_narrows (itmax : Z) (xa0 xb0 xc0 y : Q) :
  xa0 < xb0 -> xb0 < xc0 ->
  let r := brentmin M critlim eps tol criter itmax xa0 xb0 xc0 y in
  xa0 <= xa r /\ xc r <= xc0 /\ xa r <= xb r /\ xb r <= xc r.
Proof.
  intros Hab Hbc. unfold brentmin.
  pose proof (loop_narrows xa0 xc0 (Z.to_nat itmax) 0 (init xa0 xb0 xc0 y)) as H.
  cbn [init xleft x0 xright] in H.
  specialize (H ltac:(lra) ltac:(lra) ltac:(lra)).
  destruct (loop M critlim eps tol criter (Z.to_nat itmax) 0
              (init xa0 xb0 xc0 y)) as [s n].
  cbn [fst xa xb xc] in *.
  destruct H as (A & (B & C) & D).
  repeat split; assumption.
Qed.

End BrentBracket.

Lemma brentmin_narrows_witness :
  0 < 2 /\ 2 < 5 /\
  let r := Brent.brentmin run_libm (- (1000)) (1 # 100000) (1 # 1000)
             parabola 6 0 2 5 1 in
  0 <= Brent.xa r /\ Brent.xc r <= 5
  /\ Brent.xa r <= Brent.xb r /\ Brent.xb r <= Brent.xc r.
Proof.
  split; [reflexivity|]. split; [reflexivity|].
  apply (brentmin_narrows run_libm (- (1000)) (1 # 100000) (1 # 1000)
           parabola 6 0 2 5 1); reflexivity.
Defined.

(** ** BRENTMIN: the choice of the trial step *)

Section BrentTrial.
Import Brent.
Variable M : libm.
Variable tol : Q.






End BrentTrial.





(** ** POWELL: the iteration cap *)

Section PowellCap.
Import Powell.
Variable M : libm.
Variable maxits : Z.
Variables critlim tol : Q.
Variable criter : list Q -> Q.
Variable n : nat.

Lemma cap_reached_off (it : Z) :
  (maxits <= 0)%Z -> cap_reached maxits it = false.
Proof.
  intro H. unfold cap_reached.
  replace (0 <? maxits)%Z with false by (symmetry; apply Z.ltb_ge; lia).
  apply andb_false_r.
Qed.

Lemma head_exit (s s' : state) (e : exit) :
  head maxits critlim tol s = inr (s', e) ->
  (e = Cap /\ cap_reached maxits (iter s) = true)
  \/ e = Critlim \/ e = Converged.
Proof.
  unfold head. intro H.
  destruct (cap_reached maxits (iter s)).
  - inversion H; auto.
  - destruct (Qlt_bool (fbest s) critlim).
    + inversion H; auto.
    + destruct (Qle_bool (prev_best s - fbest s) (toler tol (prev_best s))
                && (2 <=? _)%Z); inversion H; auto.
Qed.

Lemma head_continue (s s1 : state) :
  head maxits critlim tol s = inl s1 ->
  cap_reached maxits (iter s) = false
  /\ iter s1 = (iter s + 1)%Z
  /\ x s1 = x s /\ direc s1 = direc s /\ fbest s1 = fbest s
  /\ critlim <= fbest s.
Proof.
  unfold head. intro H.
  destruct (cap_reached maxits (iter s)); [discriminate|].
  destruct (Qlt_bool (fbest s) critlim) eqn:E; [discriminate|].
  destruct (Qle_bool (prev_best s - fbest s) (toler tol (prev_best s))
            && (2 <=? _)%Z); [discriminate|].
  inversion H; subst; simpl. tests. repeat split; auto.
Qed.

Lemma body_exit (fuel : nat) (s s' : state) (e : exit) :
  body M critlim tol criter n fuel s = Some (inr (s', e)) ->
  (e = LineCritlim \/ e = ReplacementCritlim) /\ iter s' = iter s.
Proof.
  unfold body. intro H.
  destruct (directions _ _ _ _ _ _ _ _ _ _ _ _) as [[w | w] |];
    [|inversion H; subst; auto|discriminate].
  destruct (_ && _); [|discriminate].
  destruct (bracket_line _ _ _ _ _ _) as [b|]; [|discriminate].
  destruct (Qlt_bool (GlobMin.y2 b) critlim); [|discriminate].
  destruct (settle _ _ _ _). inversion H; subst; auto.
Qed.

Lemma body_continue_iter (fuel : nat) (s s' : state) :
  body M critlim tol criter n fuel s = Some (inl s') -> iter s' = iter s.
Proof.
  unfold body. intro H.
  destruct (directions _ _ _ _ _ _ _ _ _ _ _ _) as [[w | w] |];
    [|discriminate|discriminate].
  destruct (_ && _).
  - destruct (bracket_line _ _ _ _ _ _) as [b|]; [|discriminate].
    destruct (Qlt_bool (GlobMin.y2 b) critlim).
    + destruct (settle _ _ _ _). discriminate.
    + inversion H; subst; reflexivity.
  - inversion H; subst; reflexivity.
Qed.

Lemma main_loop_reason (fuel : nat) (s : state) (done : list state) (r : run) :
  main_loop M maxits critlim tol criter n fuel s done = Some r ->
  (maxits <= 0)%Z ->
  reason r = Critlim \/ reason r = Converged
  \/ reason r = LineCritlim \/ reason r = ReplacementCritlim.
Proof.
  intros H Hm. revert s done H.
  induction fuel as [|fuel IH]; intros s done H; [discriminate|].
  cbn [main_loop] in H.
  destruct (head maxits critlim tol s) as [s1 | [s' e]] eqn:Eh.
  - destruct (body M critlim tol criter n (S fuel) s1) as [[s' | [s' e]] |] eqn:Eb;
      [|inversion H; subst; simpl|discriminate].
    + exact (IH _ _ H).
    + destruct (body_exit _ _ _ _ Eb) as [[-> | ->] _]; auto.
  - inversion H; subst; simpl.
    destruct (head_exit _ _ _ Eh) as [[_ Hc] | [-> | ->]]; auto.
    rewrite cap_reached_off in Hc by assumption. discriminate.
Qed.

Lemma main_loop_passes (fuel : nat) (s : state) (done : list state) (r : run) :
  main_loop M maxits critlim tol criter n fuel s done = Some r ->
  (0 < maxits)%Z ->
  iter s = Z.of_nat (length done) -> (iter s <= maxits)%Z ->
  (Z.of_nat (length (passes r)) <= maxits)%Z.
Proof.
  intros H Hm. revert s done H.
  induction fuel as [|fuel IH]; intros s done H Hi Hle; [discriminate|].
  cbn [main_loop] in H.
  destruct (head maxits critlim tol s) as [s1 | [s' e]] eqn:Eh.
  - destruct (head_continue _ _ Eh) as (Hc & Hi1 & _).
    unfold cap_reached in Hc.
    assert (Hlt : (iter s < maxits)%Z).
    { destruct (maxits <=? iter s)%Z eqn:E1; [|tests; lia].
      replace (0 <? maxits)%Z with true in Hc by (symmetry; apply Z.ltb_lt; lia).
      discriminate. }
    destruct (body M critlim tol criter n (S fuel) s1) as [[s' | [s' e]] |] eqn:Eb;
      [|inversion H; subst; cbn [passes]|discriminate].
    + apply (IH _ _ H).
      * rewrite (body_continue_iter _ _ _ Eb), Hi1. simpl length. lia.
      * rewrite (body_continue_iter _ _ _ Eb), Hi1. lia.
    + rewrite length_app, length_rev. simpl length. lia.
  - inversion H; subst; cbn [passes]. rewrite length_rev. lia.
Qed.

Lemma head_below_cap (s s1 : state) :
  (0 < maxits)%Z -> head maxits critlim tol s = inl s1 ->
  (iter s < maxits)%Z /\ iter s1 = (iter s + 1)%Z.
Proof.
  intros Hm Eh. destruct (head_continue _ _ Eh) as (Hc & Hi & _).
  split; [|exact Hi].
  unfold cap_reached in Hc.
  destruct (maxits <=? iter s)%Z eqn:E1; [|tests; lia].
  replace (0 <? maxits)%Z with true in Hc by (symmetry; apply Z.ltb_lt; lia).
  discriminate.
Qed.

(** C10: the cap on the passes of the main loop is in force only for
    [maxits > 0].  With [maxits <= 0] the test of line 407 is false for
    every value of [iter], and a call that returns left the loop through
    one of the [critlim] tests or through the convergence counter.  With
    [maxits > 0] the loop body is entered only while fewer than [maxits]
    passes have been counted, and a call that returns has run it at most
    [maxits] times. *)
Theorem iteration_cap (fuel : nat) (x0 : list Q) (ystart : Q) :
  ((maxits <= 0)%Z ->
     (forall it, cap_reached maxits it = false)
     /\ (forall r,
          powell M maxits critlim tol criter n fuel x0 ystart = Some r ->
          reason r = Critlim \/ reason r = Converged
          \/ reason r = LineCritlim \/ reason r = ReplacementCritlim))
  /\ ((0 < maxits)%Z ->
      (forall s s1, head maxits critlim tol s = inl s1 ->
                    (iter s < maxits)%Z /\ iter s1 = (iter s + 1)%Z)
      /\ (forall r,
           powell M maxits critlim tol criter n fuel x0 ystart = Some r ->
           (Z.of_nat (length (passes r)) <= maxits)%Z)).
Proof.
  unfold powell. split; intro Hm.
  - split; [intro it; apply cap_reached_off; exact Hm|].
    intros r H. exact (main_loop_reason _ _ _ _ H Hm).
  - split; [intros s s1; apply head_below_cap; exact Hm|].
    intros r H. apply (main_loop_passes _ _ _ _ H Hm); simpl; lia.
Qed.

End PowellCap.

Lemma iteration_cap_witness :
  (exists r,
      Powell.powell run_libm 0 (1 # 2) (1 # 1000) sum_squares 1 20 [1] 1
        = Some r
      /\ (0 <= 0)%Z
      /\ (Powell.reason r = Powell.Critlim
          \/ Powell.reason r = Powell.Converged
          \/ Powell.reason r = Powell.LineCritlim
          \/ Powell.reason r = Powell.ReplacementCritlim))
  /\ (exists r,
         Powell.powell run_libm 1 (- (1000)) (1 # 1000) (fun _ => 0) 1 20 [1] 0
           = Some r
         /\ (0 < 1)%Z
         /\ (Z.of_nat (length (Powell.passes r)) <= 1)%Z).
Proof.
  split.
  - pose proof (iteration_cap run_libm 0 (1 # 2) (1 # 1000) sum_squares 1 20
                  [1] 1) as H.
    destruct (Powell.powell run_libm 0 (1 # 2) (1 # 1000) sum_squares 1 20
                [1] 1) as [r|] eqn:E; [|vm_compute in E; discriminate].
    exists r. split; [reflexivity|]. split; [lia|].
    destruct H as [H1 _]. destruct H1 as [_ H1]; [lia|].
    apply H1. reflexivity.
  - pose proof (iteration_cap run_libm 1 (- (1000)) (1 # 1000) (fun _ => 0) 1
                  20 [1] 0) as H.
    destruct (Powell.powell run_libm 1 (- (1000)) (1 # 1000) (fun _ => 0) 1
                20 [1] 0) as [r|] eqn:E; [|vm_compute in E; discriminate].
    exists r. split; [reflexivity|]. split; [lia|].
    destruct H as [_ H2]. destruct H2 as [_ H2]; [lia|].
    apply H2. reflexivity.
Defined.

(** ** The [critlim] tests are strict *)

Lemma below_critlim_strict (critlim : Q) (s : Brent.state) :
  Brent.below_critlim critlim s = true <-> Brent.y0 s < critlim.
Proof. apply Qlt_bool_iff. Qed.

Lemma head_critlim_strict (maxits : Z) (critlim tol : Q) (s s' : Powell.state) :
  Powell.head maxits critlim tol s = inr (s', Powell.Critlim) ->
  Powell.fbest s < critlim.
Proof.
  unfold Powell.head. intro H.
  destruct (Powell.cap_reached maxits (Powell.iter s)); [discriminate|].
  destruct (Qlt_bool (Powell.fbest s) critlim) eqn:E.
  - apply Qlt_bool_iff. exact E.
  - destruct (Qle_bool _ _ && (2 <=? _)%Z); discriminate.
Qed.

(** C3 at a best value equal to [critlim]: called on the constant 0 with
    [critlim = 0] and [itmax = 1], [brentmin] does not stop at the test of
    line 230 but makes its one pass; [powell] with [ystart = 0],
    [critlim = 0] and [maxits = 1] does not stop at the test of line 410
    but runs the loop body once and leaves through the cap. *)
Theorem critlim_equal_goes_on :
  Brent.iters
    (Brent.brentmin run_libm 0 (1 # 100000) (1 # 1000) (fun _ => 0) 1
       (- (1)) 0 1 0) = 1%Z
  /\ exists r,
       Powell.powell run_libm 1 0 (1 # 1000) (fun _ => 0) 1 20 [1] 0 = Some r
       /\ Powell.reason r = Powell.Cap
       /\ length (Powell.passes r) = 1%nat.
Proof.
  split; [vm_compute; reflexivity|].
  destruct (Powell.powell run_libm 1 0 (1 # 1000) (fun _ => 0) 1 20 [1] 0)
    as [r|] eqn:E; [|vm_compute in E; discriminate].
  exists r. split; [reflexivity|].
  assert (H : option_map (fun r => (Powell.reason r, length (Powell.passes r)))
                (Powell.powell run_libm 1 0 (1 # 1000) (fun _ => 0) 1 20 [1] 0)
              = Some (Powell.Cap, 1%nat)) by (vm_compute; reflexivity).
  rewrite E in H. simpl in H. inversion H. split; reflexivity.
Qed.

(** ** POWELL: the direction matrix *)

Lemma upd_length (k : nat) (v : Q) (l : list Q) :
  length (upd k v l) = length l.
Proof.
  revert k. induction l as [|a l IH]; intros [|k]; simpl; auto.
Qed.

Lemma nth_upd_other (k k' : nat) (v : Q) (l : list Q) (d : Q) :
  k <> k' -> nth k (upd k' v l) d = nth k l d.
Proof.
  revert k k'. induction l as [|a l IH]; intros [|k] [|k'] H; simpl; auto;
    try lia.
Qed.

Lemma nth_upd_same (k : nat) (v : Q) (l : list Q) (d : Q) :
  (k < length l)%nat -> nth k (upd k v l) d = v.
Proof.
  revert k. induction l as [|a l IH]; intros [|k] H; simpl in *; try lia; auto.
  apply IH. lia.
Qed.

Lemma write_row_length (todo i n r : nat) (p d : list Q) :
  length (write_row todo i n r p d) = length d.
Proof.
  revert i d. induction todo as [|todo IH]; intros i d; simpl; auto.
  rewrite IH. apply upd_length.
Qed.

Lemma write_row_outside (todo i n r : nat) (p d : list Q) (k : nat) :
  (k < r * n + i \/ r * n + i + todo <= k)%nat ->
  nth k (write_row todo i n r p d) 0 = nth k d 0.
Proof.
  revert i d. induction todo as [|todo IH]; intros i d H; simpl; auto.
  rewrite IH by lia. apply nth_upd_other. lia.
Qed.

Lemma write_row_inside (todo i n r : nat) (p d : list Q) (j : nat) :
  (i <= j < i + todo)%nat -> (r * n + j < length d)%nat ->
  nth (r * n + j) (write_row todo i n r p d) 0 = nth j p 0.
Proof.
  revert i d. induction todo as [|todo IH]; intros i d H Hd; [lia|].
  simpl. destruct (Nat.eq_dec j i) as [-> | Hne].
  - rewrite write_row_outside by lia. apply nth_upd_same. exact Hd.
  - apply IH; [lia|]. rewrite upd_length. exact Hd.
Qed.


Lemma row_write_row (n r : nat) (p d : list Q) :
  (r * n + n <= length d)%nat -> length p = n ->
  row n r (write_row n 0 n r p d) = p.
Proof.
  intros Hd Hp. unfold row.
  apply (nth_ext _ _ 0 0).
  - rewrite length_firstn, length_skipn, write_row_length. lia.
  - intros j Hj.
    rewrite length_firstn, length_skipn, write_row_length in Hj.
    rewrite nth_firstn.
    replace (j <? n)%nat with true by (symmetry; apply Nat.ltb_lt; lia).
    rewrite nth_skipn. apply write_row_inside; lia.
Qed.




(** ** POWELL: the best value never rises *)

Section LineSearch.
Import GlobMin.
Variable M : libm.
Variable u : Q -> Q.

Lemma cur_x_scan_point (i : Z) (y : Q) (s : scan) :
  cur_x (scan_point i y s) = cur_x s.
Proof.
  unfold scan_point.
  destruct ((i =? 0)%Z || Qlt_bool y (s_y2 s)); [reflexivity|].
  destruct (i =? ibest s + 1)%Z; reflexivity.
Qed.

Lemma scan_loop_best (critlim rate : Q) (todo : nat) (i : Z) (s : scan) :
  (i = 0%Z /\ (1 <= todo)%nat \/ (1 <= i)%Z /\ s_y2 s = u (s_x2 s)) ->
  let s' := scan_loop u false critlim false rate todo i s in
  s_y2 s' = u (s_x2 s')
  /\ ((1 <= i)%Z -> s_y2 s' <= s_y2 s)
  /\ (broke s' = true -> s_y2 s' <= critlim)
  /\ (broke s' = false ->
      forall k, (k < todo)%nat -> s_y2 s' <= u (grid rate k (cur_x s))).
Proof.
  revert i s. induction todo as [|todo IH]; intros i s Hi.
  - destruct Hi as [[_ ?] | [Hi Hs]]; [lia|]. simpl.
    repeat split; auto; try discriminate; try lra. intros _ k Hk. lia.
  - cbn [scan_loop]. rewrite orb_true_r.
    set (s1 := scan_point i (u (cur_x s)) s).
    assert (H1 : s_y2 s1 = u (s_x2 s1) /\ s_y2 s1 <= u (cur_x s)
                 /\ ((1 <= i)%Z -> s_y2 s1 <= s_y2 s)).
    { unfold s1, scan_point.
      destruct ((i =? 0)%Z || Qlt_bool (u (cur_x s)) (s_y2 s)) eqn:E.
      - simpl. repeat split; try lra. intro Hpos.
        apply orb_true_iff in E. destruct E as [E | E]; tests; [lia | lra].
      - tests. destruct Hi as [[? _] | [Hi Hs]]; [lia|].
        destruct (i =? ibest s + 1)%Z; simpl; repeat split; auto; lra. }
    destruct H1 as (Ha & Hb & Hc).
    destruct (good_enough critlim s1) eqn:G.
    + simpl. unfold good_enough in G. tests.
      repeat split; auto. discriminate.
    + specialize (IH (i + 1)%Z (advance false rate s1)).
      cbn [advance s_y2 s_x2 cur_x] in IH.
      destruct IH as (I1 & I2 & I3 & I4).
      { right. split; [destruct Hi as [[? _] | [? _]]; lia | exact Ha]. }
      assert (Hle : s_y2 (scan_loop u false critlim false rate todo (i + 1)
                            (advance false rate s1)) <= s_y2 s1).
      { apply I2. destruct Hi as [[? _] | [? _]]; lia. }
      assert (Hx : cur_x s1 = cur_x s) by apply cur_x_scan_point.
      rewrite Hx in I4.
      repeat split; auto.
      * intro Hpos. specialize (Hc Hpos). lra.
      * intros Hb' [|k] Hk; simpl; [lra | apply I4; [exact Hb' | lia]].
Qed.

Lemma extend_right_best (fuel : nat) (ls : bool) (rate : Q) (b b' : bracket) :
  y2 b = u (x2 b) ->
  extend_right u fuel ls rate b = Some b' ->
  y2 b' = u (x2 b') /\ y2 b' <= y2 b.
Proof.
  revert rate b. induction fuel as [|fuel IH]; intros rate b Hy H; [discriminate|].
  cbn [extend_right] in H.
  destruct (Qlt_bool (y2 b) (u (x3 b))) eqn:E1.
  - inversion H; subst; simpl. split; [exact Hy | lra].
  - destruct (Qeq_bool (y1 b) (y2 b) && Qeq_bool (y2 b) (u (x3 b))).
    + inversion H; subst; simpl. split; [exact Hy | lra].
    + apply IH in H; [|reflexivity]. simpl in H. tests. split; [tauto | lra].
Qed.

Lemma extend_left_best (fuel : nat) (ls : bool) (rate : Q) (b b' : bracket) :
  y2 b = u (x2 b) ->
  extend_left M u fuel ls rate b = Some b' ->
  y2 b' = u (x2 b') /\ y2 b' <= y2 b.
Proof.
  revert rate b. induction fuel as [|fuel IH]; intros rate b Hy H; [discriminate|].
  cbn [extend_left] in H.
  destruct (Qlt_bool (y2 b) (u (x1 b))) eqn:E1.
  - inversion H; subst; simpl. split; [exact Hy | lra].
  - destruct (Qeq_bool (u (x1 b)) (y2 b) && Qeq_bool (y2 b) (y3 b)).
    + inversion H; subst; simpl. split; [exact Hy | lra].
    + apply IH in H; [|reflexivity]. simpl in H. tests. split; [tauto | lra].
Qed.

Lemma grid_middle (low high : Q) :
  low == - high ->
  grid (fdiv M (high - low) (inject_Z (15 - 1))) 7 low == 0.
Proof.
  intro H. unfold fdiv. simpl. rewrite H. field.
Qed.

Lemma glob_min_no_worse (fuel : nat) (low high critlim : Q) (b0 b : bracket) :
  low == - high ->
  glob_min M u fuel low high 15 false critlim b0 = Some b ->
  no_worse u critlim b.
Proof.
  intro Hlow. unfold glob_min, run_scan. cbn [Z.ltb Z.compare].
  set (rate := grid_rate M false low high 15).
  pose proof (scan_loop_best critlim rate (Z.to_nat 15) 0 (init_scan low b0))
    as Hs.
  set (s := scan_loop u false critlim false rate (Z.to_nat 15) 0
              (init_scan low b0)) in *.
  destruct Hs as (S1 & _ & S3 & S4); [left; split; [reflexivity | simpl; lia]|].
  assert (Hs : y2 (neighbours M false rate s) = u (x2 (neighbours M false rate s))
               /\ (y2 (neighbours M false rate s) <= critlim
                   \/ exists t, t == 0 /\ y2 (neighbours M false rate s) <= u t)).
  { split; [exact S1|]. simpl.
    destruct (broke s) eqn:B; [left; auto|].
    right. exists (grid rate 7 low). split.
    - apply grid_middle. exact Hlow.
    - apply (S4 eq_refl). simpl. lia. }
  destruct Hs as (Ha & Hb).
  intro H.
  assert (Hr : forall b', y2 b' = u (x2 b') ->
                 y2 b' <= y2 (neighbours M false rate s) ->
                 no_worse u critlim b').
  { intros b' E1 E2. split; [exact E1|].
    destruct Hb as [Hb | (t & Ht & Hb)];
      [left; lra | right; exists t; split; [exact Ht | lra]]. }
  destruct (negb (turned_up s)).
  - apply extend_right_best in H; [|exact Ha]. apply Hr; tauto.
  - destruct (ibest s =? 0)%Z.
    + apply extend_left_best in H; [|exact Ha]. apply Hr; tauto.
    + inversion H; subst. apply Hr; [exact Ha | lra].
Qed.

End LineSearch.

Section BrentBest.
Import Brent.
Variable M : libm.
Variables critlim eps tol : Q.
Variable u : Q -> Q.

Lemma insert_best (s : state) (m t tx : Q) :
  y0 s = u (x0 s) ->
  y0 (insert s m t tx (u tx)) = u (x0 (insert s m t tx (u tx)))
  /\ y0 (insert s m t tx (u tx)) <= y0 s.
Proof.
  intro H. unfold insert.
  destruct (Qle_bool (u tx) (y0 s)) eqn:E.
  - simpl. tests. split; [reflexivity | exact E].
  - destruct (Qle_bool (u tx) (y1 s) || Qeq_bool (x1 s) (x0 s));
      [|destruct (Qle_bool (u tx) (y2 s) || Qeq_bool (x2 s) (x0 s)
                  || Qeq_bool (x2 s) (x1 s))];
      simpl; (split; [exact H | lra]).
Qed.

Lemma loop_best (todo : nat) (iter : Z) (s : state) :
  y0 s = u (x0 s) ->
  y0 (fst (loop M critlim eps tol u todo iter s))
  = u (x0 (fst (loop M critlim eps tol u todo iter s)))
  /\ y0 (fst (loop M critlim eps tol u todo iter s)) <= y0 s.
Proof.
  revert iter s. induction todo as [|todo IH]; intros iter s H.
  - simpl. split; [exact H | lra].
  - cbn [loop]. destruct (stop M critlim eps tol iter s).
    + simpl. split; [exact H | lra].
    + unfold step. destruct (next_trial M tol s) as [m t].
      destruct (insert_best s m t (trial_point tol s t) H) as [A B].
      destruct (IH (iter + 1)%Z _ A) as [C D].
      split; [exact C | lra].
Qed.

Lemma brentmin_best (itmax : Z) (xa0 xb0 xc0 y : Q) :
  y = u xb0 ->
  fval (brentmin M critlim eps tol u itmax xa0 xb0 xc0 y)
  = u (xb (brentmin M critlim eps tol u itmax xa0 xb0 xc0 y))
  /\ fval (brentmin M critlim eps tol u itmax xa0 xb0 xc0 y) <= y.
Proof.
  intro H. unfold brentmin.
  pose proof (loop_best (Z.to_nat itmax) 0 (init xa0 xb0 xc0 y) H) as L.
  destruct (loop M critlim eps tol u (Z.to_nat itmax) 0 (init xa0 xb0 xc0 y))
    as [s k].
  exact L.
Qed.

End BrentBest.

Lemma along_length (base dir : list Q) (t : Q) :
  length (along base dir t) = Nat.min (length base) (length dir).
Proof. unfold along. rewrite length_map. apply length_combine. Qed.

Lemma vsub_length (a b : list Q) :
  length (vsub a b) = Nat.min (length a) (length b).
Proof. unfold vsub. rewrite length_map. apply length_combine. Qed.

Lemma vadd_length (a b : list Q) :
  length (vadd a b) = Nat.min (length a) (length b).
Proof. unfold vadd. rewrite length_map. apply length_combine. Qed.

Lemma along_zero (base dir : list Q) (t : Q) :
  t == 0 -> (length base <= length dir)%nat ->
  Forall2 Qeq (along base dir t) base.
Proof.
  intro Ht. revert dir.
  induction base as [|a base IH]; intros [|d dir] H; simpl in *; try lia.
  - constructor.
  - constructor.
  - constructor; [simpl; rewrite Ht; ring | apply IH; lia].
Qed.

Lemma row_length (n idir : nat) (d : list Q) :
  length d = (n * n)%nat -> (idir < n)%nat -> length (row n idir d) = n.
Proof.
  intros Hd Hi. unfold row. rewrite length_firstn, length_skipn. nia.
Qed.

Lemma identity_length (n : nat) : length (identity n) = (n * n)%nat.
Proof.
  unfold identity.
  assert (H : forall l : list nat,
             length (flat_map (fun i => map (fun j => if Nat.eqb j i then 1 else 0)
                                         (seq 0 n)) l)
             = (length l * n)%nat).
  { induction l as [|a l IH]; simpl; [reflexivity|].
    rewrite length_app, length_map, length_seq, IH. reflexivity. }
  rewrite H, length_seq. reflexivity.
Qed.

Section PowellDescent.
Import Powell.
Variable M : libm.
Variable maxits : Z.
Variables critlim tol : Q.
Variable criter : list Q -> Q.
Variable n : nat.

(** The criterion depends on the value of its argument only, not on the
    fraction that stands for it. *)
Hypothesis criter_proper :
  forall a b, Forall2 Qeq a b -> criter a == criter b.

Lemma mult_loop_no_worse (fuel : nat) (u : Q -> Q) (sc : Q) (todo : nat)
    (mult : Q) (b b' : GlobMin.bracket) :
  mult_loop M critlim fuel u sc todo mult b = Some b' ->
  Qlt_bool mult 11 = true \/ no_worse u critlim b ->
  no_worse u critlim b'.
Proof.
  revert mult b. induction todo as [|todo IH]; intros mult b H Hb.
  - simpl in H. destruct (Qlt_bool mult 11); [discriminate|].
    inversion H; subst. destruct Hb; [discriminate | assumption].
  - cbn [mult_loop] in H. destruct (Qlt_bool mult 11).
    + destruct (GlobMin.glob_min M u fuel (- mult * sc) (mult * sc) 15 false
                  critlim b) as [b1|] eqn:G; [|discriminate].
      assert (H1 : no_worse u critlim b1).
      { apply (glob_min_no_worse M u fuel (- mult * sc) (mult * sc) critlim b b1);
          [ring | exact G]. }
      destruct (Qlt_bool (GlobMin.y2 b1) (GlobMin.y1 b1)
                && Qlt_bool (GlobMin.y2 b1) (GlobMin.y3 b1)).
      * inversion H; subst. exact H1.
      * apply (IH _ _ H). right. exact H1.
    + inversion H; subst. destruct Hb; [discriminate | assumption].
Qed.

Lemma bracket_line_no_worse (fuel : nat) (u : Q -> Q) (sc fb : Q)
    (b : GlobMin.bracket) :
  bracket_line M critlim fuel u sc fb = Some b -> no_worse u critlim b.
Proof.
  unfold bracket_line. intro H.
  apply (mult_loop_no_worse _ _ _ _ _ _ _ H). left. reflexivity.
Qed.

(** Four passes are enough for the loop over [mult]: it gives a bracket
    whenever every call of [glob_min] returns. *)
Lemma bracket_line_returns (fuel : nat) (u : Q -> Q) (sc fb : Q) :
  (forall low high b,
     exists b', GlobMin.glob_min M u fuel low high 15 false critlim b = Some b') ->
  exists b, bracket_line M critlim fuel u sc fb = Some b.
Proof.
  intro G. unfold bracket_line.
  do 4 (cbn [mult_loop];
        match goal with
        | |- context [Qlt_bool ?m 11] => change (Qlt_bool m 11) with true
        end;
        cbv iota;
        match goal with
        | |- context [GlobMin.glob_min M u fuel ?l ?h 15 false critlim ?b] =>
            let b1 := fresh "b" in
            let E := fresh "E" in
            destruct (G l h b) as [b1 E]; rewrite E
        end;
        match goal with
        | |- context [if ?c then _ else _] => destruct c; [eauto|]
        end).
  cbn [mult_loop].
  match goal with
  | |- context [Qlt_bool ?m 11] => change (Qlt_bool m 11) with false
  end.
  eauto.
Qed.

Lemma refine_best (cc : Z) (u : Q -> Q) (b : GlobMin.bracket) :
  GlobMin.y2 b = u (GlobMin.x2 b) ->
  Brent.fval (refine M critlim tol cc u b)
  = u (Brent.xb (refine M critlim tol cc u b))
  /\ Brent.fval (refine M critlim tol cc u b) <= GlobMin.y2 b.
Proof.
  intro H. unfold refine.
  destruct (negb (cc =? 0)%Z); apply brentmin_best; exact H.
Qed.

Lemma line_value (top : Q) (base dir : list Q) (fb : Q) (b : GlobMin.bracket) :
  fb == criter base -> length base = n -> length dir = n ->
  critlim <= top -> fb <= top ->
  no_worse (univar_crit criter base dir) critlim b ->
  GlobMin.y2 b <= top.
Proof.
  intros Hf Hb Hd Hc Ht [_ [H | (t & Ht0 & H)]]; [lra|].
  unfold univar_crit in H.
  assert (E : criter (along base dir t) == criter base).
  { apply criter_proper. apply along_zero; [exact Ht0 | lia]. }
  rewrite E in H. lra.
Qed.

Lemma search_direction_ok (top : Q) (fuel : nat) (cc : Z) (dir : list Q)
    (idir : nat) (w : walk) (o : walk + walk) :
  critlim <= top -> walk_ok criter n top w -> length dir = n ->
  search_direction M critlim tol criter n fuel cc dir idir w = Some o ->
  walk_ok criter n top (either o).
Proof.
  intros Hc (Hf & Hl & Ht) Hd. unfold search_direction.
  destruct (bracket_line M critlim fuel (univar_crit criter (w_x w) dir)
              (w_scale w) (w_fbest w)) as [b|] eqn:B; [|discriminate].
  pose proof (bracket_line_no_worse _ _ _ _ _ B) as Hb.
  pose proof (line_value top _ _ _ _ Hf Hl Hd Hc Ht Hb) as Hy.
  destruct Hb as [Hb _].
  destruct (Qlt_bool (GlobMin.y2 b) critlim).
  - unfold settle. destruct (Qlt_bool (GlobMin.y2 b) (w_fbest w));
      intro H; inversion H; subst; unfold walk_ok; simpl.
    + split; [|split].
      * rewrite Hb. reflexivity.
      * rewrite along_length. lia.
      * exact Hy.
    + repeat split; assumption.
  - intro H. inversion H; subst; unfold walk_ok; simpl.
    destruct (refine_best cc _ b Hb) as [R1 R2].
    split; [|split].
    + rewrite R1. reflexivity.
    + rewrite along_length. lia.
    + lra.
Qed.

Lemma directions_ok (top : Q) (fuel : nat) (cc : Z) (d : list Q) (rep : Z)
    (todo idir : nat) (w : walk) (o : walk + walk) :
  critlim <= top -> length d = (n * n)%nat -> (idir + todo = n)%nat ->
  walk_ok criter n top w ->
  directions M critlim tol criter n fuel cc d rep todo idir w = Some o ->
  walk_ok criter n top (either o).
Proof.
  intros Hc Hd. revert idir w.
  induction todo as [|todo IH]; intros idir w Hi Hw H.
  - simpl in H. injection H as <-. exact Hw.
  - cbn [directions] in H.
    destruct (Nat.ltb 1 n && Nat.eqb idir 0 && (rep =? 0)%Z).
    + apply (IH (S idir) w); [lia | exact Hw | exact H].
    + destruct (search_direction M critlim tol criter n fuel cc (row n idir d)
                  idir w) as [[w' | w'] |] eqn:Es; [| |discriminate].
      * apply (IH (S idir) w'); [lia | | exact H].
        apply (search_direction_ok top fuel cc (row n idir d) idir w (inl w'));
          auto. apply row_length; [exact Hd | lia].
      * injection H as <-.
        apply (search_direction_ok top fuel cc (row n idir d) idir w (inr w'));
          auto. apply row_length; [exact Hd | lia].
Qed.

Lemma body_descends (fuel : nat) (s : state) (o : state + state * exit) :
  state_ok criter n s -> critlim <= fbest s ->
  body M critlim tol criter n fuel s = Some o ->
  state_ok criter n (after o) /\ fbest (after o) <= fbest s.
Proof.
  intros (Hf & Hl & Hd) Hc. unfold body.
  destruct (directions M critlim tol criter n fuel (convergence_counter s)
              (direc s) (replaced s) n 0
              {| w_x := x s; w_fbest := fbest s; w_scale := scale s;
                 delta := - (1); idelta := 0 |}) as [o'|] eqn:D; [|discriminate].
  assert (Hw : walk_ok criter n (fbest s) (either o')).
  { apply (directions_ok (fbest s) _ _ _ _ _ _ _ _ Hc Hd (Nat.add_0_l n)) in D;
      [exact D|].
    unfold walk_ok; simpl. repeat split; [exact Hf | exact Hl | lra]. }
  destruct o' as [w | w]; simpl in Hw; destruct Hw as (Wf & Wl & Wt).
  - set (p0 := vsub (w_x w) (x s)).
    set (base := vadd (w_x w) p0).
    set (fb := if Qlt_bool (criter base) (w_fbest w) then criter base
               else w_fbest w).
    set (xs := if Qlt_bool (criter base) (w_fbest w) then base else w_x w).
    assert (Hp : length p0 = n) by (unfold p0; rewrite vsub_length; lia).
    assert (Hxs : fb == criter xs /\ length xs = n /\ fb <= fbest s).
    { unfold fb, xs. destruct (Qlt_bool (criter base) (w_fbest w)) eqn:E; tests.
      - split; [reflexivity | split; [|lra]].
        unfold base. rewrite vadd_length. lia.
      - split; [|split]; assumption. }
    destruct Hxs as (Xf & Xl & Xt).
    destruct (Qlt_bool (criter base) (fbest s)
              && replace_test (fbest s) (w_fbest w) (criter base) (delta w)).
    + assert (Hu : length (unit_length M p0) = n)
        by (unfold unit_length; rewrite length_map; exact Hp).
      destruct (bracket_line M critlim fuel
                  (univar_crit criter xs (unit_length M p0)) (w_scale w) fb)
        as [b|] eqn:B; [|discriminate].
      pose proof (bracket_line_no_worse _ _ _ _ _ B) as Hb.
      pose proof (line_value (fbest s) _ _ _ _ Xf Xl Hu Hc Xt Hb) as Hy.
      destruct Hb as [Hb _].
      destruct (Qlt_bool (GlobMin.y2 b) critlim).
      * unfold settle. destruct (Qlt_bool (GlobMin.y2 b) fb);
          intro H; inversion H; subst; unfold state_ok; simpl.
        -- split; [split; [|split]|].
           ++ rewrite Hb. reflexivity.
           ++ rewrite along_length. lia.
           ++ exact Hd.
           ++ exact Hy.
        -- repeat split; assumption.
      * intro H. inversion H; subst; unfold state_ok; simpl.
        destruct (refine_best (convergence_counter s) _ b Hb) as [R1 R2].
        split; [split; [|split]|].
        -- rewrite R1. reflexivity.
        -- rewrite along_length. lia.
        -- rewrite write_row_length. exact Hd.
        -- lra.
    + intro H. inversion H; subst; unfold state_ok; simpl.
      repeat split; assumption.
  - intro H. inversion H; subst; unfold state_ok; simpl.
    repeat split; assumption.
Qed.

Lemma main_loop_descends (fuel : nat) (s : state) (done : list state)
    (r : run) :
  state_ok criter n s ->
  main_loop M maxits critlim tol criter n fuel s done = Some r ->
  exists new, passes r = rev done ++ new
              /\ descending (fbest s) (map fbest new).
Proof.
  revert s done. induction fuel as [|fuel IH]; intros s done Hs H; [discriminate|].
  cbn [main_loop] in H.
  destruct (head maxits critlim tol s) as [s1 | [s' e]] eqn:Eh.
  - destruct (head_continue _ _ _ _ _ Eh) as (_ & _ & Hx & Hd & Hf & Hc).
    assert (Hs1 : state_ok criter n s1).
    { destruct Hs as (A & B & C). unfold state_ok.
      rewrite Hx, Hd, Hf. repeat split; assumption. }
    assert (Hc1 : critlim <= fbest s1) by (rewrite Hf; exact Hc).
    destruct (body M critlim tol criter n (S fuel) s1) as [o|] eqn:Eb;
      [|discriminate].
    destruct (body_descends _ _ _ Hs1 Hc1 Eb) as [Ho Hle].
    rewrite Hf in Hle.
    destruct o as [s' | [s' e]]; simpl in Ho, Hle.
    + destruct (IH _ _ Ho H) as (new & Hn & Hdesc).
      exists (s' :: new). split.
      * rewrite Hn. simpl. rewrite <- app_assoc. reflexivity.
      * simpl. split; assumption.
    + inversion H; subst; simpl. exists [s']. split; [reflexivity|].
      simpl. split; [exact Hle | exact I].
  - inversion H; subst; simpl. exists []. split; [symmetry; apply app_nil_r|].
    exact I.
Qed.

(** C2 (as amended): when [ystart] is the value of the criterion at the
    starting point, the best value at the end of a pass through the main
    loop never exceeds the best value at its start.  [passes r] lists the
    states at the end of every pass of a call that returns, and the first
    pass starts from [ystart]. *)
Theorem fbest_never_rises (fuel : nat) (x0 : list Q) (ystart : Q) (r : run) :
  length x0 = n ->
  ystart == criter x0 ->
  powell M maxits critlim tol criter n fuel x0 ystart = Some r ->
  descending ystart (map fbest (passes r)).
Proof.
  intros Hl Hy H. unfold powell in H.
  assert (Hs : state_ok criter n (init n x0 ystart)).
  { unfold state_ok, init; simpl.
    split; [exact Hy | split; [exact Hl | apply identity_length]]. }
  destruct (main_loop_descends _ _ _ _ Hs H) as (new & Hn & Hd).
  simpl in Hn. rewrite Hn. exact Hd.
Qed.

End PowellDescent.

Lemma sumsq_proper (a b : list Q) :
  Forall2 Qeq a b -> forall p q, p == q ->
  fold_left (fun len v => len + v * v) a p
  == fold_left (fun len v => len + v * v) b q.
Proof.
  induction 1 as [|v w a b Hv Hab IH]; intros p q Hpq; simpl.
  - exact Hpq.
  - apply IH. rewrite Hv, Hpq. reflexivity.
Qed.

Lemma sum_squares_proper (a b : list Q) :
  Forall2 Qeq a b -> sum_squares a == sum_squares b.
Proof.
  intro H. unfold sum_squares, sumsq. rewrite !Qred_correct.
  apply sumsq_proper; [exact H | reflexivity].
Qed.

Lemma fbest_never_rises_witness :
  (forall a b, Forall2 Qeq a b -> sum_squares a == sum_squares b)
  /\ length [1] = 1%nat
  /\ 1 == sum_squares [1]
  /\ exists r,
       Powell.powell run_libm 0 (1 # 2) (1 # 1000) sum_squares 1 20 [1] 1
         = Some r
       /\ descending 1 (map Powell.fbest (Powell.passes r)).
Proof.
  split; [exact sum_squares_proper|].
  split; [reflexivity|]. split; [reflexivity|].
  destruct (Powell.powell run_libm 0 (1 # 2) (1 # 1000) sum_squares 1 20 [1] 1)
    as [r|] eqn:E; [|vm_compute in E; discriminate].
  exists r. split; [reflexivity|].
  apply (fbest_never_rises run_libm 0 (1 # 2) (1 # 1000) sum_squares 1
           sum_squares_proper 20 [1] 1 r);
    [reflexivity | reflexivity | exact E].
Defined.

(** C2 as stated fails when [ystart] is below the value of the criterion
    at the starting point: on the constant 0 with [ystart = -5] the first
    pass ends with the best value 0. *)
Lemma fbest_rises_counterexample :
  exists r,
    Powell.powell run_libm 1 (- (1000)) (1 # 1000) (fun _ => 0) 1 20 [1] (- (5))
      = Some r
    /\ ~ descending (- (5)) (map Powell.fbest (Powell.passes r)).
Proof.
  destruct (Powell.powell run_libm 1 (- (1000)) (1 # 1000) (fun _ => 0) 1 20
              [1] (- (5))) as [r|] eqn:E; [|vm_compute in E; discriminate].
  exists r. split; [reflexivity|].
  assert (H : option_map
                (fun r => match Powell.passes r with
                          | s :: _ => Qle_bool (Powell.fbest s) (- (5))
                          | [] => true
                          end)
                (Powell.powell run_libm 1 (- (1000)) (1 # 1000) (fun _ => 0) 1
                   20 [1] (- (5))) = Some false) by (vm_compute; reflexivity).
  rewrite E in H. simpl in H. injection H as H.
  destruct (Powell.passes r) as [|s l]; [discriminate|].
  simpl. intros [Hd _]. apply Qle_bool_iff in Hd. congruence.
Defined.

(** ** POWELL: what a pass does to the direction matrix *)



Section PowellDirec.
Import Powell.
Variable M : libm.
Variable maxits : Z.
Variables critlim tol : Q.
Variable criter : list Q -> Q.
Variable n : nat.











End PowellDirec.



(** * Further properties *)

(** ** GLOB_MIN: the abscissas returned *)

Lemma inject_Z_pos (k : Z) : (0 < k)%Z -> 0 < inject_Z k.
Proof.
  intro H. unfold Qlt, inject_Z. simpl. lia.
Qed.

Lemma fdiv_exact (M : libm) (a b : Q) : ~ b == 0 -> fdiv M a b = a / b.
Proof.
  intro H. unfold fdiv. apply Qeq_bool_false in H. rewrite H. reflexivity.
Qed.

Lemma linear_rate_pos (M : libm) (low high : Q) (npts : Z) :
  low < high -> (2 <= npts)%Z ->
  0 < GlobMin.grid_rate M false low high npts.
Proof.
  intros Hlh Hn. unfold GlobMin.grid_rate.
  assert (Hp : 0 < inject_Z (npts - 1)) by (apply inject_Z_pos; lia).
  rewrite fdiv_exact by lra.
  apply Qlt_shift_div_l; [exact Hp | lra].
Qed.

Section GlobMinOrder.
Import GlobMin.
Variable M : libm.
Variable criter : Q -> Q.

Lemma extend_right_ordered (fuel : nat) (rate : Q) (b b' : bracket) :
  0 < rate -> x1 b < x2 b -> x2 b < x3 b ->
  extend_right criter fuel false rate b = Some b' ->
  x1 b' < x2 b' /\ x2 b' < x3 b'.
Proof.
  revert rate b. induction fuel as [|fuel IH]; intros rate b Hr H12 H23 H;
    [discriminate|].
  cbn [extend_right] in H.
  destruct (Qlt_bool (y2 b) (criter (x3 b))).
  - injection H as <-. simpl. split; assumption.
  - destruct (Qeq_bool (y1 b) (y2 b) && Qeq_bool (y2 b) (criter (x3 b))).
    + injection H as <-. simpl. split; assumption.
    + eapply IH; [| | |exact H]; simpl; lra.
Qed.

Lemma extend_left_ordered (fuel : nat) (rate : Q) (b b' : bracket) :
  0 < rate -> x1 b < x2 b -> x2 b < x3 b ->
  extend_left M criter fuel false rate b = Some b' ->
  x1 b' < x2 b' /\ x2 b' < x3 b'.
Proof.
  revert rate b. induction fuel as [|fuel IH]; intros rate b Hr H12 H23 H;
    [discriminate|].
  cbn [extend_left] in H.
  destruct (Qlt_bool (y2 b) (criter (x1 b))).
  - injection H as <-. simpl. split; assumption.
  - destruct (Qeq_bool (criter (x1 b)) (y2 b) && Qeq_bool (y2 b) (y3 b)).
    + injection H as <-. simpl. split; assumption.
    + eapply IH; [| | |exact H]; simpl; lra.
Qed.

Lemma glob_min_linear_ordered (fuel : nat) (low high : Q) (npts : Z)
    (critlim : Q) (b0 b : bracket) :
  0 < grid_rate M false low high (if (npts <? 0)%Z then (- npts)%Z else npts) ->
  glob_min M criter fuel low high npts false critlim b0 = Some b ->
  x1 b < x2 b /\ x2 b < x3 b.
Proof.
  intros Hr H. unfold glob_min in H.
  set (rate := grid_rate M false low high
                 (if (npts <? 0)%Z then (- npts)%Z else npts)) in *.
  set (s := run_scan M criter low high npts false critlim b0) in *.
  assert (Hn : x1 (neighbours M false rate s) < x2 (neighbours M false rate s)
               /\ x2 (neighbours M false rate s) < x3 (neighbours M false rate s))
    by (simpl; split; lra).
  destruct Hn as [A B].
  destruct (negb (turned_up s)).
  - exact (extend_right_ordered _ _ _ _ Hr A B H).
  - destruct (ibest s =? 0)%Z.
    + exact (extend_left_ordered _ _ _ _ Hr A B H).
    + injection H as <-. split; assumption.
Qed.


End GlobMinOrder.


(** ** GLOB_MIN: the centre is the least value of the grid *)

Section GlobMinGrid.
Import GlobMin.
Variable M : libm.
Variable criter : Q -> Q.

Lemma glob_min_grid (fuel : nat) (low high : Q) (npts : Z) (critlim : Q)
    (b0 b : bracket) :
  (1 <= npts)%Z ->
  glob_min M criter fuel low high npts false critlim b0 = Some b ->
  y2 b = criter (x2 b)
  /\ (y2 b <= critlim
      \/ forall k, (k < Z.to_nat npts)%nat ->
           y2 b <= criter (grid (grid_rate M false low high npts) k low)).
Proof.
  intros Hn. unfold glob_min, run_scan.
  replace (npts <? 0)%Z with false by (symmetry; apply Z.ltb_ge; lia).
  set (rate := grid_rate M false low high npts).
  pose proof (scan_loop_best criter critlim rate (Z.to_nat npts) 0
                (init_scan low b0)) as Hs.
  set (s := scan_loop criter false critlim false rate (Z.to_nat npts) 0
              (init_scan low b0)) in *.
  destruct Hs as (S1 & _ & S3 & S4); [left; split; [reflexivity | lia]|].
  assert (Hb : s_y2 s <= critlim
               \/ forall k, (k < Z.to_nat npts)%nat ->
                    s_y2 s <= criter (grid rate k low)).
  { destruct (broke s) eqn:B; [left; auto | right; exact (S4 eq_refl)]. }
  intro H.
  assert (Hr : forall b', y2 b' = criter (x2 b') -> y2 b' <= s_y2 s ->
                 y2 b' = criter (x2 b')
                 /\ (y2 b' <= critlim
                     \/ forall k, (k < Z.to_nat npts)%nat ->
                          y2 b' <= criter (grid rate k low))).
  { intros b' E1 E2. split; [exact E1|].
    destruct Hb as [Hb | Hb]; [left; lra|].
    right. intros k Hk. specialize (Hb k Hk). lra. }
  destruct (negb (turned_up s)).
  - apply extend_right_best in H; [|exact S1]. apply Hr; tauto.
  - destruct (ibest s =? 0)%Z.
    + apply (extend_left_best M) in H; [|exact S1]. apply Hr; tauto.
    + injection H as <-. apply Hr; [exact S1 | simpl; lra].
Qed.

(** With linear spacing and [npts >= 1], the centre value returned by
    [glob_min] is the criterion at the centre returned, and it is at most
    [critlim] (the scan was left early) or at most the criterion at every
    one of the [npts] grid points. *)
Theorem glob_min_grid_least (fuel : nat) (low high : Q) (npts : Z)
    (critlim : Q) (b0 b : bracket) :
  (1 <= npts)%Z ->
  glob_min M criter fuel low high npts false critlim b0 = Some b ->
  y2 b = criter (x2 b)
  /\ (y2 b <= critlim
      \/ forall k, (k < Z.to_nat npts)%nat ->
           y2 b <= criter (grid (grid_rate M false low high npts) k low)).
Proof.
  intros Hn H. exact (glob_min_grid fuel low high npts critlim b0 b Hn H).
Qed.

Lemma scan_loop_known_first (ls : bool) (critlim rate : Q) (todo : nat)
    (i : Z) (s : scan) :
  (1 <= i)%Z \/ i = 0%Z /\ s_y2 s = criter (cur_x s) ->
  scan_loop criter ls critlim true rate todo i s
  = scan_loop criter ls critlim false rate todo i s.
Proof.
  revert i s. induction todo as [|todo IH]; intros i s Hi; [reflexivity|].
  cbn [scan_loop].
  assert (E : (if negb (i =? 0)%Z || negb true then criter (cur_x s)
               else s_y2 s)
              = (if negb (i =? 0)%Z || negb false then criter (cur_x s)
                 else s_y2 s)).
  { rewrite orb_true_r. simpl negb. rewrite orb_false_r.
    destruct (i =? 0)%Z eqn:E0; simpl; [|reflexivity].
    destruct Hi as [Hi | [_ Hi]]; [tests; lia | exact Hi]. }
  rewrite E.
  destruct (good_enough critlim _); [reflexivity|].
  apply IH. left. destruct Hi as [Hi | [Hi _]]; lia.
Qed.

End GlobMinGrid.

(** ** GLOB_MIN: what is read of the output parameters *)

Section GlobMinEntry.
Import GlobMin.
Variable M : libm.
Variable criter : Q -> Q.

(** Passing [-npts] with [f(low)] in [*y2] gives exactly what passing
    [npts] gives: the saved evaluation changes nothing else. *)
Theorem glob_min_known_first (fuel : nat) (low high : Q) (npts : Z)
    (log_space : bool) (critlim : Q) (b0 : bracket) :
  (1 <= npts)%Z ->
  y2 b0 = criter low ->
  glob_min M criter fuel low high (- npts) log_space critlim b0
  = glob_min M criter fuel low high npts log_space critlim b0.
Proof.
  intros Hn Hy. unfold glob_min, run_scan.
  replace (- npts <? 0)%Z with true by (symmetry; apply Z.ltb_lt; lia).
  replace (npts <? 0)%Z with false by (symmetry; apply Z.ltb_ge; lia).
  rewrite Z.opp_involutive.
  rewrite scan_loop_known_first; [reflexivity|].
  right. split; [reflexivity | exact Hy].
Qed.

Lemma scan_point_same (i : Z) (y : Q) (s s' : scan) :
  same_but_y3 s s' -> same_but_y3 (scan_point i y s) (scan_point i y s').
Proof.
  intros (A & B & C & D & E & F & G & H & I & J). unfold scan_point.
  rewrite <- G, <- C.
  destruct ((i =? 0)%Z || Qlt_bool y (s_y2 s)).
  - unfold same_but_y3; simpl. repeat split; auto. discriminate.
  - destruct (i =? ibest s + 1)%Z; unfold same_but_y3; simpl;
      repeat split; auto.
Qed.

Lemma good_enough_same (critlim : Q) (s s' : scan) :
  same_but_y3 s s' -> good_enough critlim s = good_enough critlim s'.
Proof.
  intros (A & B & C & D & E & F & G & _). unfold good_enough.
  rewrite G, C, D. reflexivity.
Qed.

Lemma scan_loop_same (ls : bool) (critlim : Q) (kfp : bool) (rate : Q)
    (todo : nat) (i : Z) (s s' : scan) :
  same_but_y3 s s' ->
  same_but_y3 (scan_loop criter ls critlim kfp rate todo i s)
              (scan_loop criter ls critlim kfp rate todo i s').
Proof.
  revert i s s'. induction todo as [|todo IH]; intros i s s' H.
  - destruct H as (A & B & C & D & E & F & G & _ & _ & J).
    unfold same_but_y3; simpl. repeat split; auto.
  - cbn [scan_loop].
    assert (Hy : (if negb (i =? 0)%Z || negb kfp then criter (cur_x s)
                  else s_y2 s)
                 = (if negb (i =? 0)%Z || negb kfp then criter (cur_x s')
                    else s_y2 s')).
    { destruct H as (A & _ & _ & _ & _ & _ & G & _). rewrite A, G. reflexivity. }
    rewrite <- Hy.
    set (y := if negb (i =? 0)%Z || negb kfp then criter (cur_x s) else s_y2 s).
    pose proof (scan_point_same i y s s' H) as Hp.
    rewrite <- (good_enough_same critlim _ _ Hp).
    destruct (good_enough critlim (scan_point i y s)).
    + destruct Hp as (A & B & C & D & E & F & G & _ & _ & J).
      unfold same_but_y3; simpl. repeat split; auto.
    + apply IH.
      destruct Hp as (A & B & C & D & E & F & G & H1 & H2 & J).
      unfold same_but_y3; simpl. rewrite A. repeat split; auto.
Qed.

Lemma extend_right_ignores_y3 (fuel : nat) (ls : bool) (rate : Q)
    (b b' : bracket) :
  x1 b = x1 b' -> y1 b = y1 b' -> x2 b = x2 b' -> y2 b = y2 b' ->
  x3 b = x3 b' ->
  extend_right criter fuel ls rate b = extend_right criter fuel ls rate b'.
Proof.
  intros A B C D E. destruct fuel as [|fuel]; [reflexivity|].
  cbn [extend_right]. rewrite A, B, C, D, E. reflexivity.
Qed.

(** With [npts >= 1] the result of [glob_min] does not depend on what the
    six output parameters hold on entry. *)
Theorem glob_min_ignores_entry (fuel : nat) (low high : Q) (npts : Z)
    (log_space : bool) (critlim : Q) (b0 b0' : bracket) :
  (1 <= npts)%Z ->
  glob_min M criter fuel low high npts log_space critlim b0
  = glob_min M criter fuel low high npts log_space critlim b0'.
Proof.
  intro Hn. unfold glob_min, run_scan.
  replace (npts <? 0)%Z with false by (symmetry; apply Z.ltb_ge; lia).
  set (rate := grid_rate M log_space low high npts).
  assert (Hs : same_but_y3
                 (scan_loop criter log_space critlim false rate (Z.to_nat npts)
                    0 (init_scan low b0))
                 (scan_loop criter log_space critlim false rate (Z.to_nat npts)
                    0 (init_scan low b0'))).
  { destruct (Z.to_nat npts) as [|todo] eqn:E; [lia|].
    cbn [scan_loop]. rewrite orb_true_r.
    assert (Hp : same_but_y3 (scan_point 0 (criter (cur_x (init_scan low b0)))
                                (init_scan low b0))
                             (scan_point 0 (criter (cur_x (init_scan low b0')))
                                (init_scan low b0'))).
    { unfold scan_point, same_but_y3; simpl. repeat split; auto. discriminate. }
    rewrite <- (good_enough_same critlim _ _ Hp).
    destruct (good_enough critlim _).
    - destruct Hp as (A & B & C & D & E' & F & G & _ & _ & J).
      unfold same_but_y3; simpl. repeat split; auto.
    - apply scan_loop_same.
      destruct Hp as (A & B & C & D & E' & F & G & H1 & H2 & J).
      unfold same_but_y3. cbn [advance cur_x previous ibest turned_up s_y1
                                 s_x2 s_y2 s_y3 idx broke].
      rewrite A. repeat split; auto. }
  destruct Hs as (A & B & C & D & E & F & G & _ & _ & J).
  rewrite <- D, <- C.
  destruct (turned_up _) eqn:T; simpl negb; cbv iota.
  - assert (Hb : neighbours M log_space rate
                   (scan_loop criter log_space critlim false rate
                      (Z.to_nat npts) 0 (init_scan low b0))
                 = neighbours M log_space rate
                     (scan_loop criter log_space critlim false rate
                        (Z.to_nat npts) 0 (init_scan low b0'))).
    { unfold neighbours. rewrite F, E, G, (J eq_refl). reflexivity. }
    rewrite Hb. reflexivity.
  - apply extend_right_ignores_y3; simpl; rewrite ?F, ?E, ?G; reflexivity.
Qed.

End GlobMinEntry.

(** ** GLOB_MIN: the values returned lie on the criterion *)

Section GlobMinGraph.
Import GlobMin.
Variable M : libm.
Variable criter : Q -> Q.
Hypothesis criter_proper : forall a b, a == b -> criter a == criter b.






End GlobMinGraph.


Lemma glob_min_grid_least_witness :
  (1 <= 6)%Z /\
  exists b,
    GlobMin.glob_min run_libm parabola 10 0 5 6 false (- (1000)) zero_bracket
      = Some b
    /\ GlobMin.y2 b = parabola (GlobMin.x2 b)
    /\ (GlobMin.y2 b <= - (1000)
        \/ forall k, (k < Z.to_nat 6)%nat ->
             GlobMin.y2 b
             <= parabola (grid (GlobMin.grid_rate run_libm false 0 5 6) k 0)).
Proof.
  split; [lia|].
  eexists. split; [vm_compute; reflexivity|].
  apply (glob_min_grid_least run_libm parabola 10 0 5 6 (- (1000))
           zero_bracket); [lia | vm_compute; reflexivity].
Defined.

Lemma glob_min_known_first_witness :
  (1 <= 6)%Z
  /\ GlobMin.y2 {| GlobMin.x1 := 0; GlobMin.y1 := 0; GlobMin.x2 := 0;
                   GlobMin.y2 := 9; GlobMin.x3 := 0; GlobMin.y3 := 0 |}
     = parabola 0
  /\ GlobMin.glob_min run_libm parabola 10 0 5 (- 6) false (- (1000))
       {| GlobMin.x1 := 0; GlobMin.y1 := 0; GlobMin.x2 := 0;
          GlobMin.y2 := 9; GlobMin.x3 := 0; GlobMin.y3 := 0 |}
     = GlobMin.glob_min run_libm parabola 10 0 5 6 false (- (1000))
         {| GlobMin.x1 := 0; GlobMin.y1 := 0; GlobMin.x2 := 0;
            GlobMin.y2 := 9; GlobMin.x3 := 0; GlobMin.y3 := 0 |}.
Proof.
  split; [lia|]. split; [reflexivity|].
  apply (glob_min_known_first run_libm parabola 10 0 5 6 false (- (1000)));
    [lia | reflexivity].
Defined.

Lemma glob_min_ignores_entry_witness :
  (1 <= 6)%Z
  /\ GlobMin.glob_min run_libm parabola 10 0 5 6 false (- (1000)) zero_bracket
     = GlobMin.glob_min run_libm parabola 10 0 5 6 false (- (1000))
         {| GlobMin.x1 := 1; GlobMin.y1 := 2; GlobMin.x2 := 3;
            GlobMin.y2 := 4; GlobMin.x3 := 5; GlobMin.y3 := 6 |}.
Proof.
  split; [lia|].
  apply (glob_min_ignores_entry run_libm parabola 10 0 5 6 false (- (1000)));
    lia.
Defined.


(** ** BRENTMIN: where the criterion is called, and what is returned *)

Section BrentPoints.
Import Brent.
Variable M : libm.
Variables critlim eps tol : Q.
Variable criter : Q -> Q.

Lemma points_inside (lo hi : Q) (todo : nat) (iter : Z) (s : state) :
  lo <= xleft s -> xleft s <= x0 s <= xright s -> xright s <= hi ->
  Forall (fun t => lo <= t <= hi)
         (brent_points M critlim eps tol criter todo iter s).
Proof.
  revert iter s. induction todo as [|todo IH]; intros iter s Hlo Hs Hhi.
  - constructor.
  - cbn [brent_points]. destruct (stop M critlim eps tol iter s) eqn:E.
    + constructor.
    + unfold stop in E. tests.
      pose proof (trial_point_inside M tol s Hs ltac:(assumption)) as Ht.
      destruct (step_narrows M tol criter s Hs) as (A & B & C & D);
        [assumption|].
      constructor; [lra|].
      apply IH; [lra | split; assumption | lra].
Qed.

Lemma points_length (todo : nat) (iter : Z) (s : state) :
  Z.of_nat (length (brent_points M critlim eps tol criter todo iter s))
  = (snd (loop M critlim eps tol criter todo iter s) - iter)%Z.
Proof.
  revert iter s. induction todo as [|todo IH]; intros iter s.
  - simpl. lia.
  - cbn [brent_points loop]. destruct (stop M critlim eps tol iter s).
    + simpl. lia.
    + simpl length. rewrite Nat2Z.inj_succ, IH. lia.
Qed.

(** Called on [xa <= xb <= xc], [brentmin] evaluates the criterion only at
    abscissas of the bracket it was given, once in every pass. *)
Theorem brentmin_stays_inside (itmax : Z) (xa0 xb0 xc0 y : Q) :
  xa0 <= xb0 -> xb0 <= xc0 ->
  Forall (fun t => xa0 <= t <= xc0)
         (brentmin_points M critlim eps tol criter itmax xa0 xb0 xc0 y)
  /\ Z.of_nat (length (brentmin_points M critlim eps tol criter itmax
                         xa0 xb0 xc0 y))
     = iters (brentmin M critlim eps tol criter itmax xa0 xb0 xc0 y).
Proof.
  intros Hab Hbc. unfold brentmin_points, brentmin. split.
  - apply points_inside; simpl; lra.
  - rewrite points_length.
    destruct (loop M critlim eps tol criter (Z.to_nat itmax) 0
                (init xa0 xb0 xc0 y)) as [s k].
    simpl. lia.
Qed.

Lemma insert_seen (s : state) (m t tx : Q) :
  y0 (insert s m t tx (criter tx)) <= y0 s
  /\ y0 (insert s m t tx (criter tx)) <= criter tx.
Proof.
  unfold insert.
  destruct (Qle_bool (criter tx) (y0 s)) eqn:E.
  - simpl. tests. split; lra.
  - destruct (Qle_bool (criter tx) (y1 s) || Qeq_bool (x1 s) (x0 s));
      [|destruct (Qle_bool (criter tx) (y2 s) || Qeq_bool (x2 s) (x0 s)
                  || Qeq_bool (x2 s) (x1 s))];
      simpl; tests; split; lra.
Qed.

Lemma loop_seen (todo : nat) (iter : Z) (s : state) :
  y0 (fst (loop M critlim eps tol criter todo iter s)) <= y0 s
  /\ Forall (fun t => y0 (fst (loop M critlim eps tol criter todo iter s))
                      <= criter t)
            (brent_points M critlim eps tol criter todo iter s).
Proof.
  revert iter s. induction todo as [|todo IH]; intros iter s.
  - simpl. split; [lra | constructor].
  - cbn [loop brent_points]. destruct (stop M critlim eps tol iter s).
    + simpl. split; [lra | constructor].
    + destruct (IH (iter + 1)%Z (step M tol criter s)) as [A B].
      assert (Hs : y0 (step M tol criter s) <= y0 s
                   /\ y0 (step M tol criter s)
                      <= criter (trial_point tol s (snd (next_trial M tol s)))).
      { unfold step. destruct (next_trial M tol s) as [m t]. simpl.
        apply insert_seen. }
      destruct Hs as [C D].
      split; [lra|]. constructor; [lra | exact B].
Qed.

(** [brentmin] returns the least value it has seen: its result is no
    greater than the value [y] it was given nor than the criterion at any
    abscissa it evaluated, and when [y] is the criterion at [*xb] on entry
    the result is the criterion at [*xb] on return. *)
Theorem brentmin_least_seen (itmax : Z) (xa0 xb0 xc0 y : Q) :
  fval (brentmin M critlim eps tol criter itmax xa0 xb0 xc0 y) <= y
  /\ Forall (fun t => fval (brentmin M critlim eps tol criter itmax
                              xa0 xb0 xc0 y) <= criter t)
            (brentmin_points M critlim eps tol criter itmax xa0 xb0 xc0 y)
  /\ (y = criter xb0 ->
      fval (brentmin M critlim eps tol criter itmax xa0 xb0 xc0 y)
      = criter (xb (brentmin M critlim eps tol criter itmax xa0 xb0 xc0 y))).
Proof.
  split; [|split].
  - unfold brentmin.
    pose proof (loop_seen (Z.to_nat itmax) 0 (init xa0 xb0 xc0 y)) as [A _].
    destruct (loop M critlim eps tol criter (Z.to_nat itmax) 0
                (init xa0 xb0 xc0 y)) as [s k].
    exact A.
  - unfold brentmin, brentmin_points.
    pose proof (loop_seen (Z.to_nat itmax) 0 (init xa0 xb0 xc0 y)) as [_ B].
    destruct (loop M critlim eps tol criter (Z.to_nat itmax) 0
                (init xa0 xb0 xc0 y)) as [s k].
    exact B.
  - intro Hy. apply brentmin_best. exact Hy.
Qed.

(** [brentmin] makes no pass at all exactly when [itmax <= 0], or the
    value given is already below [critlim], or the bracket given already
    passes the convergence test of line 247; it then hands back the
    bracket and the value it was given. *)
Theorem brentmin_untouched (itmax : Z) (xa0 xb0 xc0 y : Q) :
  (iters (brentmin M critlim eps tol criter itmax xa0 xb0 xc0 y) = 0%Z
   <-> (itmax <= 0)%Z \/ y < critlim
       \/ converged tol (init xa0 xb0 xc0 y) = true)
  /\ (iters (brentmin M critlim eps tol criter itmax xa0 xb0 xc0 y) = 0%Z ->
      xa (brentmin M critlim eps tol criter itmax xa0 xb0 xc0 y) = xa0
      /\ xb (brentmin M critlim eps tol criter itmax xa0 xb0 xc0 y) = xb0
      /\ xc (brentmin M critlim eps tol criter itmax xa0 xb0 xc0 y) = xc0
      /\ fval (brentmin M critlim eps tol criter itmax xa0 xb0 xc0 y) = y).
Proof.
  unfold brentmin.
  destruct (Z.to_nat itmax) as [|todo] eqn:En.
  - simpl. split; [|auto]. split; [intros _; left; lia | reflexivity].
  - cbn [loop].
    assert (Hstop : stop M critlim eps tol 0 (init xa0 xb0 xc0 y) = true
                    <-> y < critlim \/ converged tol (init xa0 xb0 xc0 y) = true).
    { unfold stop, refined, below_critlim. simpl (4 <=? 0)%Z. simpl andb.
      rewrite orb_false_r, orb_true_iff, Qlt_bool_iff. simpl. tauto. }
    destruct (stop M critlim eps tol 0 (init xa0 xb0 xc0 y)) eqn:E.
    + simpl. split; [|auto].
      split; [intros _; right; apply Hstop; reflexivity | reflexivity].
    + pose proof (loop_iters M critlim eps tol criter todo (0 + 1)
                    (step M tol criter (init xa0 xb0 xc0 y))) as Hi.
      destruct (loop M critlim eps tol criter todo (0 + 1)
                  (step M tol criter (init xa0 xb0 xc0 y))) as [s k].
      simpl in *. split; [|intro; lia].
      split; [intro; lia|].
      intros [H | H]; [lia|]. apply Hstop in H. discriminate.
Qed.

End BrentPoints.

Lemma brentmin_stays_inside_witness :
  0 <= 2 /\ 2 <= 5 /\
  Forall (fun t => 0 <= t <= 5)
         (brentmin_points run_libm (- (1000)) (1 # 100000) (1 # 1000)
            parabola 3 0 2 5 1)
  /\ Z.of_nat (length (brentmin_points run_libm (- (1000)) (1 # 100000)
                         (1 # 1000) parabola 3 0 2 5 1))
     = Brent.iters (Brent.brentmin run_libm (- (1000)) (1 # 100000)
                      (1 # 1000) parabola 3 0 2 5 1).
Proof.
  split; [discriminate|]. split; [discriminate|].
  apply (brentmin_stays_inside run_libm (- (1000)) (1 # 100000) (1 # 1000)
           parabola 3 0 2 5 1); discriminate.
Defined.

Lemma brentmin_least_seen_witness :
  1 = parabola 2
  /\ Brent.fval (Brent.brentmin run_libm (- (1000)) (1 # 100000) (1 # 1000)
                   parabola 3 0 2 5 1)
     = parabola (Brent.xb (Brent.brentmin run_libm (- (1000)) (1 # 100000)
                             (1 # 1000) parabola 3 0 2 5 1)).
Proof.
  split; [reflexivity|].
  apply (brentmin_least_seen run_libm (- (1000)) (1 # 100000) (1 # 1000)
           parabola 3 0 2 5 1). reflexivity.
Defined.

Lemma brentmin_untouched_witness :
  1 < 2
  /\ Brent.iters (Brent.brentmin run_libm 2 (1 # 100000) (1 # 1000)
                    parabola 3 0 2 5 1) = 0%Z
  /\ Brent.xb (Brent.brentmin run_libm 2 (1 # 100000) (1 # 1000)
                 parabola 3 0 2 5 1) = 2
  /\ Brent.fval (Brent.brentmin run_libm 2 (1 # 100000) (1 # 1000)
                   parabola 3 0 2 5 1) = 1.
Proof.
  split; [reflexivity|].
  destruct (brentmin_untouched run_libm 2 (1 # 100000) (1 # 1000) parabola
              3 0 2 5 1) as [H1 H2].
  assert (H0 : Brent.iters (Brent.brentmin run_libm 2 (1 # 100000) (1 # 1000)
                              parabola 3 0 2 5 1) = 0%Z).
  { apply H1. right. left. reflexivity. }
  split; [exact H0|]. destruct (H2 H0) as (_ & B & _ & D).
  split; assumption.
Defined.

(** ** POWELL: what a call returns *)

Section PowellResult.
Import Powell.
Variable M : libm.
Variable maxits : Z.
Variables critlim tol : Q.
Variable criter : list Q -> Q.
Variable n : nat.


Lemma cap_not_at_start : cap_reached maxits 0 = false.
Proof.
  unfold cap_reached.
  destruct (maxits <=? 0)%Z eqn:A; [|reflexivity].
  destruct (0 <? maxits)%Z eqn:B; [|reflexivity].
  tests. lia.
Qed.

(** Called with a starting value already below [critlim], [powell]
    returns at once, whatever [maxits]: no pass is made, and the point
    and the value are those given. *)
Theorem powell_already_good (fuel : nat) (x0 : list Q) (ystart : Q) :
  ystart < critlim ->
  exists r,
    powell M maxits critlim tol criter n (S fuel) x0 ystart = Some r
    /\ reason r = Critlim /\ passes r = []
    /\ x (final r) = x0 /\ fbest (final r) = ystart.
Proof.
  intro H. unfold powell. cbn [main_loop].
  unfold head. cbn [init iter fbest]. rewrite cap_not_at_start.
  apply Qlt_bool_iff in H. rewrite H.
  eexists. split; [reflexivity|]. simpl. auto.
Qed.

Section Proper.
Hypothesis criter_proper :
  forall a b, Forall2 Qeq a b -> criter a == criter b.



End Proper.

Lemma body_continue_counter (fuel : nat) (s s' : state) :
  body M critlim tol criter n fuel s = Some (inl s') ->
  convergence_counter s' = convergence_counter s.
Proof.
  unfold body. intro H.
  destruct (directions _ _ _ _ _ _ _ _ _ _ _ _) as [[w | w] |];
    [|discriminate|discriminate].
  destruct (_ && _).
  - destruct (bracket_line _ _ _ _ _ _) as [b|]; [|discriminate].
    destruct (Qlt_bool (GlobMin.y2 b) critlim).
    + destruct (settle _ _ _ _). discriminate.
    + inversion H; subst; reflexivity.
  - inversion H; subst; reflexivity.
Qed.

Lemma head_counter (s : state) :
  (0 <= convergence_counter s)%Z ->
  match head maxits critlim tol s with
  | inl s1 =>
      (0 <= convergence_counter s1 <= 1)%Z
      /\ (convergence_counter s1 <= convergence_counter s + 1)%Z
  | inr (s', Converged) =>
      (1 <= convergence_counter s)%Z
      /\ convergence_counter s' = (convergence_counter s + 1)%Z
      /\ prev_best s' - fbest s' <= toler tol (prev_best s')
  | inr _ => True
  end.
Proof.
  intro H0. unfold head.
  destruct (cap_reached maxits (iter s)); [exact I|].
  destruct (Qlt_bool (fbest s) critlim); [exact I|].
  destruct (Qle_bool (prev_best s - fbest s) (toler tol (prev_best s))) eqn:E.
  - simpl andb. destruct (2 <=? convergence_counter s + 1)%Z eqn:E2; tests.
    + simpl. repeat split; [lia | exact E].
    + simpl. lia.
  - simpl. lia.
Qed.

Lemma main_loop_converged (fuel : nat) (s : state) (done : list state)
    (r : run) :
  main_loop M maxits critlim tol criter n fuel s done = Some r ->
  (0 <= convergence_counter s <= 1)%Z ->
  (convergence_counter s <= Z.of_nat (length done))%Z ->
  reason r = Converged ->
  (1 <= length (passes r))%nat
  /\ convergence_counter (final r) = 2%Z
  /\ prev_best (final r) - fbest (final r) <= toler tol (prev_best (final r)).
Proof.
  revert s done. induction fuel as [|fuel IH]; intros s done H Hc Hd Hr;
    [discriminate|].
  cbn [main_loop] in H.
  pose proof (head_counter s (proj1 Hc)) as Hh.
  destruct (head maxits critlim tol s) as [s1 | [s' e]] eqn:Eh.
  - destruct Hh as [Hc1 Hc2].
    destruct (body M critlim tol criter n (S fuel) s1) as [[s' | [s' e]] |] eqn:Eb;
      [| |discriminate].
    + apply (IH _ _ H); [| |exact Hr].
      * rewrite (body_continue_counter _ _ _ Eb). exact Hc1.
      * rewrite (body_continue_counter _ _ _ Eb). simpl length. lia.
    + injection H as <-. simpl in Hr. subst e.
      destruct (body_exit M critlim tol criter n _ _ _ _ Eb) as [[? | ?] _];
        discriminate.
  - injection H as <-. simpl in Hr. subst e. cbn [passes final].
    destruct Hh as (A & B & C).
    rewrite length_rev. split; [lia|]. split; [lia | exact C].
Qed.

(** A call that leaves through the convergence counter has made at least
    one pass, the counter stands at 2, and the last pass lowered the best
    value by no more than the tolerance of lines 417-420. *)
Theorem powell_converged (fuel : nat) (x0 : list Q) (ystart : Q) (r : run) :
  powell M maxits critlim tol criter n fuel x0 ystart = Some r ->
  reason r = Converged ->
  (1 <= length (passes r))%nat
  /\ convergence_counter (final r) = 2%Z
  /\ prev_best (final r) - fbest (final r) <= toler tol (prev_best (final r)).
Proof.
  unfold powell. intros H Hr.
  apply (main_loop_converged _ _ _ _ H); simpl; try lia. exact Hr.
Qed.

End PowellResult.

Lemma powell_already_good_witness :
  0 < 1
  /\ exists r,
       Powell.powell run_libm 5 1 (1 # 1000) sum_squares 2 (S 0) [3; 4] 0
         = Some r
       /\ Powell.reason r = Powell.Critlim /\ Powell.passes r = []
       /\ Powell.x (Powell.final r) = [3; 4]
       /\ Powell.fbest (Powell.final r) = 0.
Proof.
  split; [reflexivity|].
  apply (powell_already_good run_libm 5 1 (1 # 1000) sum_squares 2 0 [3; 4] 0).
  reflexivity.
Defined.


Lemma powell_converged_witness :
  exists r,
    Powell.powell run_libm 0 (- (1000)) 1 (fun _ => 0) 1 20 [1] 0 = Some r
    /\ Powell.reason r = Powell.Converged
    /\ (1 <= length (Powell.passes r))%nat
    /\ Powell.convergence_counter (Powell.final r) = 2%Z.
Proof.
  destruct (Powell.powell run_libm 0 (- (1000)) 1 (fun _ => 0) 1 20 [1] 0)
    as [r|] eqn:E; [|vm_compute in E; discriminate].
  exists r. split; [reflexivity|].
  assert (Hr : Powell.reason r = Powell.Converged).
  { assert (H : option_map Powell.reason
                  (Powell.powell run_libm 0 (- (1000)) 1 (fun _ => 0) 1 20
                     [1] 0) = Some Powell.Converged)
      by (vm_compute; reflexivity).
    rewrite E in H. simpl in H. injection H as H. exact H. }
  split; [exact Hr|].
  destruct (powell_converged run_libm 0 (- (1000)) 1 (fun _ => 0) 1 20 [1] 0
              r E Hr) as (A & B & _).
  split; assumption.
Defined.

(** ** POWELL: a call that does not end *)

Section ScanFuel.
Import GlobMin.
Variable M : libm.
Variable criter : Q -> Q.




End ScanFuel.

Section PowellEnds.
Import Powell.
Variable M : libm.
Variable maxits : Z.
Variables critlim tol : Q.
Variable criter : list Q -> Q.
Variable n : nat.







End PowellEnds.


(** ** ARCING: the weights of AdaBoostBinary *)





Section ArcingWeights.
Import Arcing.
Variable M : libm.


Hypothesis exp_positive : forall t, 0 < fexp M t.







Variable predict : nat -> list Q -> list Q.




End ArcingWeights.

Section ArcingCounts.
Import Arcing.
Variable M : libm.
Variable predict : nat -> list Q -> list Q.

Lemma train_loop_counts (fuel : nat) (n nmods : Z) (ts : list Q)
    (todo imodel : nat) (d al : list Q) (r : trained) :
  Z.of_nat (imodel + todo) = nmods -> length al = imodel ->
  train_loop M predict fuel n nmods ts todo imodel d al = Some r ->
  (0 <= nmodels r <= nmods)%Z /\ Z.of_nat (length (alpha r)) = nmodels r.
Proof.
  revert imodel d al. induction todo as [|todo IH]; intros imodel d al Hn Hl H.
  - injection H as <-. simpl. lia.
  - cbn [train_loop] in H.
    destruct (Nat.eqb (nbad (products (predict imodel d) ts)) 0).
    + injection H as <-. simpl. rewrite length_app. simpl. lia.
    + destruct (Nat.eqb (ngood (products (predict imodel d) ts)) 0).
      * injection H as <-. simpl. lia.
      * destruct (optimal_alpha M fuel d (products (predict imodel d) ts))
          as [a|]; [|discriminate].
        eapply (IH (S imodel) _ (al ++ [a]));
          [lia | rewrite length_app; simpl; lia | exact H].
Qed.

(** The constructor keeps between 0 and [nmods] models, and exactly as
    many [alpha] have been assigned as models are kept: [class_predict]
    never reads an [alpha] that was not set. *)
Theorem train_counts (fuel : nat) (n : Z) (ts : list Q) (nmods : Z)
    (r : trained) :
  (0 <= nmods)%Z ->
  train M predict fuel n ts nmods = Some r ->
  (0 <= nmodels r <= nmods)%Z /\ Z.of_nat (length (alpha r)) = nmodels r.
Proof.
  intros Hn H. unfold train in H.
  eapply train_loop_counts; [| |exact H]; simpl; [lia | reflexivity].
Qed.

End ArcingCounts.

(** ** ARCING: the search for alpha *)

Section ArcingAlpha.
Import Arcing.
Variable M : libm.

Lemma optimal_alpha_bracket (fuel : nat) (d u : list Q) (a : Q) :
  optimal_alpha M fuel d u = Some a ->
  exists b,
    GlobMin.glob_min M (alpha_crit M d u) fuel (- (1)) 1 3 false 0 locals
      = Some b
    /\ a = Brent.xb (Brent.brentmin M 0 (1 / ten_pow 6) (1 / ten_pow 4)
                       (alpha_crit M d u) 20 (GlobMin.x1 b) (GlobMin.x2 b)
                       (GlobMin.x3 b) (GlobMin.y2 b)).
Proof.
  unfold optimal_alpha. intro H.
  destruct (GlobMin.glob_min M (alpha_crit M d u) fuel (- (1)) 1 3 false 0
              locals) as [b|]; [|discriminate].
  exists b. split; [reflexivity|]. injection H as <-. reflexivity.
Qed.

(** The bracket in which alpha is sought has its three abscissas in
    increasing order, and the alpha chosen lies between its ends. *)
Theorem optimal_alpha_in_bracket (fuel : nat) (d u : list Q) (a : Q) :
  optimal_alpha M fuel d u = Some a ->
  exists b,
    GlobMin.glob_min M (alpha_crit M d u) fuel (- (1)) 1 3 false 0 locals
      = Some b
    /\ GlobMin.x1 b < GlobMin.x2 b /\ GlobMin.x2 b < GlobMin.x3 b
    /\ GlobMin.x1 b <= a /\ a <= GlobMin.x3 b.
Proof.
  intro H. destruct (optimal_alpha_bracket fuel d u a H) as (b & Hb & Ha).
  exists b. split; [exact Hb|].
  destruct (glob_min_linear_ordered M (alpha_crit M d u) fuel (- (1)) 1 3 0
              locals b) as [A B]; [|exact Hb|].
  { change (0 < GlobMin.grid_rate M false (- (1)) 1 3).
    apply linear_rate_pos; [reflexivity | lia]. }
  split; [exact A|]. split; [exact B|].
  subst a. unfold Brent.brentmin.
  pose proof (loop_narrows M 0 (1 / ten_pow 6) (1 / ten_pow 4)
                (alpha_crit M d u) (GlobMin.x1 b) (GlobMin.x3 b)
                (Z.to_nat 20) 0
                (Brent.init (GlobMin.x1 b) (GlobMin.x2 b) (GlobMin.x3 b)
                   (GlobMin.y2 b))) as Hn.
  cbn [Brent.init Brent.xleft Brent.x0 Brent.xright] in Hn.
  specialize (Hn ltac:(lra) ltac:(lra) ltac:(lra)).
  destruct (Brent.loop M 0 (1 / ten_pow 6) (1 / ten_pow 4) (alpha_crit M d u)
              (Z.to_nat 20) 0
              (Brent.init (GlobMin.x1 b) (GlobMin.x2 b) (GlobMin.x3 b)
                 (GlobMin.y2 b))) as [s k].
  cbn [fst Brent.xb] in *. lra.
Qed.

Hypothesis exp_proper : forall s t, s == t -> fexp M s == fexp M t.
Hypothesis exp_nonneg : forall t, 0 <= fexp M t.

Lemma alpha_crit_proper (d u : list Q) (s t : Q) :
  s == t -> alpha_crit M d u s == alpha_crit M d u t.
Proof.
  intro Hst. unfold alpha_crit.
  assert (H : forall (l : list (Q * Q)) acc acc', acc == acc' ->
            fold_left (fun sum p => sum + fst p * fexp M (- s * snd p)) l acc
            == fold_left (fun sum p => sum + fst p * fexp M (- t * snd p))
                 l acc').
  { induction l as [|p l IH]; intros acc acc' Ha; simpl; [exact Ha|].
    apply IH.
    assert (E : fexp M (- s * snd p) == fexp M (- t * snd p))
      by (apply exp_proper; rewrite Hst; reflexivity).
    rewrite E, Ha. reflexivity. }
  apply H. reflexivity.
Qed.

Lemma alpha_crit_nonneg (d u : list Q) (t : Q) :
  Forall (fun v => 0 <= v) d -> 0 <= alpha_crit M d u t.
Proof.
  intro Hd. unfold alpha_crit.
  assert (H : forall l acc, 0 <= acc -> Forall (fun p => 0 <= fst p) l ->
            0 <= fold_left (fun sum p => sum + fst p * fexp M (- t * snd p))
                   l acc).
  { induction l as [|p l IH]; intros acc Ha Hl; simpl; [exact Ha|].
    inversion Hl; subst. apply IH; [|assumption].
    pose proof (exp_nonneg (- t * snd p)).
    assert (0 <= fst p * fexp M (- t * snd p))
      by (apply Qmult_le_0_compat; assumption).
    lra. }
  apply H; [discriminate|].
  clear H. revert u. induction Hd as [|v d Hv Hd IH]; intros [|w u]; simpl;
    constructor; [exact Hv | apply IH].
Qed.

(** The alpha chosen for a model is never worse than no reweighting at
    all: the criterion (the sum that rescales the weights) at the alpha
    chosen is at most the criterion at 0, and also at -1 and at 1, the
    three points of the bracketing grid. *)
Theorem optimal_alpha_no_worse (fuel : nat) (d u : list Q) (a t : Q) :
  Forall (fun v => 0 <= v) d ->
  optimal_alpha M fuel d u = Some a ->
  t == - (1) \/ t == 0 \/ t == 1 ->
  alpha_crit M d u a <= alpha_crit M d u t.
Proof.
  intros Hd H Ht.
  destruct (optimal_alpha_bracket fuel d u a H) as (b & Hb & Ha).
  destruct (glob_min_grid M (alpha_crit M d u) fuel (- (1)) 1 3 0 locals b
              ltac:(lia) Hb) as [Hy Hg].
  destruct (brentmin_best M 0 (1 / ten_pow 6) (1 / ten_pow 4)
              (alpha_crit M d u) 20 (GlobMin.x1 b) (GlobMin.x2 b)
              (GlobMin.x3 b) (GlobMin.y2 b) Hy) as [Hf Hle].
  rewrite <- Ha in Hf. rewrite <- Hf.
  destruct Hg as [Hg | Hg].
  - pose proof (alpha_crit_nonneg d u t Hd). lra.
  - assert (Hk : exists k, (k < Z.to_nat 3)%nat
                   /\ grid (GlobMin.grid_rate M false (- (1)) 1 3) k (- (1)) == t).
    { destruct Ht as [Ht | [Ht | Ht]];
        [exists 0%nat | exists 1%nat | exists 2%nat];
        (split; [simpl; lia|]); rewrite Ht;
        unfold GlobMin.grid_rate, fdiv; simpl; reflexivity. }
    destruct Hk as (k & Hk & E).
    specialize (Hg k Hk).
    rewrite (alpha_crit_proper d u _ _ E) in Hg. lra.
Qed.

End ArcingAlpha.

(** ** ARCING: the class predicted *)

Lemma hard_limit_again (h : Q) :
  Arcing.hard_limit (Arcing.hard_limit h) = Arcing.hard_limit h.
Proof.
  unfold Arcing.hard_limit.
  destruct (Qlt_bool 1 h) eqn:A.
  - reflexivity.
  - destruct (Qlt_bool h (- (1))) eqn:B.
    + reflexivity.
    + rewrite A, B. reflexivity.
Qed.

Lemma hard_limit_opp (h : Q) :
  Arcing.hard_limit (- h) == - Arcing.hard_limit h.
Proof.
  unfold Arcing.hard_limit.
  destruct (Qlt_bool 1 (- h)) eqn:A; destruct (Qlt_bool 1 h) eqn:B;
    repeat match goal with
    | |- context [if ?c then _ else _] =>
        let E := fresh "E" in destruct c eqn:E
    end; tests; lra.
Qed.

Lemma hard_limit_bounds (h : Q) :
  - (1) <= Arcing.hard_limit h /\ Arcing.hard_limit h <= 1.
Proof.
  unfold Arcing.hard_limit.
  destruct (Qlt_bool 1 h) eqn:A;
    repeat match goal with
    | |- context [if ?c then _ else _] =>
        let E := fresh "E" in destruct c eqn:E
    end; tests; lra.
Qed.

Lemma weighted_sum_opp (l : list (Q * Q)) (acc : Q) :
  fold_left (fun sum p => sum + fst p * Arcing.hard_limit (snd p))
            (map (fun p => (fst p, - snd p)) l) (- acc)
  == - fold_left (fun sum p => sum + fst p * Arcing.hard_limit (snd p)) l acc.
Proof.
  revert acc. induction l as [|p l IH]; intro acc; simpl; [reflexivity|].
  rewrite <- IH.
  assert (Hacc : forall (k : list (Q * Q)) a a', a == a' ->
            fold_left (fun sum q => sum + fst q * Arcing.hard_limit (snd q)) k a
            == fold_left (fun sum q => sum + fst q * Arcing.hard_limit (snd q))
                 k a').
  { clear. induction k as [|q k IH]; intros a a' Ha; simpl; [exact Ha|].
    apply IH. rewrite Ha. reflexivity. }
  apply Hacc. rewrite hard_limit_opp. ring.
Qed.

Lemma combine_map_snd (f : Q -> Q) (al hs : list Q) :
  combine al (map f hs) = map (fun p => (fst p, f (snd p))) (combine al hs).
Proof.
  revert hs. induction al as [|a al IH]; intros [|h hs]; simpl;
    try reflexivity.
  rewrite IH. reflexivity.
Qed.

Lemma combine_map_limit (al hs : list Q) :
  fold_left (fun sum p => sum + fst p * Arcing.hard_limit (snd p))
            (combine al (map Arcing.hard_limit hs)) 0
  = fold_left (fun sum p => sum + fst p * Arcing.hard_limit (snd p))
              (combine al hs) 0.
Proof.
  generalize 0 as acc. revert hs.
  induction al as [|a al IH]; intros [|h hs] acc; simpl; try reflexivity.
  rewrite hard_limit_again. apply IH.
Qed.

(** [class_predict] returns the error flag -1 exactly when no model was
    kept, and 0 or 1 otherwise.  Changing the sign of every model's
    prediction turns an answer 0 into 1 (a zero sum goes to class 1 either
    way), and predictions beyond +/-1 count as +/-1. *)
Theorem class_predict_flags (nmods : Z) (al hs : list Q) :
  (Arcing.class_predict nmods al hs = (-1)%Z <-> nmods = 0%Z)
  /\ (nmods <> 0%Z ->
      Arcing.class_predict nmods al hs = 0%Z
      \/ Arcing.class_predict nmods al hs = 1%Z)
  /\ (Arcing.class_predict nmods al hs = 0%Z ->
      Arcing.class_predict nmods al (map Qopp hs) = 1%Z)
  /\ ((Z.to_nat nmods >= length al)%nat ->
      Arcing.class_predict nmods al (map Arcing.hard_limit hs)
      = Arcing.class_predict nmods al hs).
Proof.
  unfold Arcing.class_predict.
  destruct (nmods =? 0)%Z eqn:E; tests.
  - split; [tauto|]. split; [tauto|]. split; [discriminate | reflexivity].
  - split.
    { split; [|tauto]. destruct (Qlt_bool 0 _); discriminate. }
    split.
    { intros _. destruct (Qlt_bool 0 _); auto. }
    split.
    + rewrite combine_map_snd, firstn_map.
      pose proof (weighted_sum_opp
                    (firstn (Z.to_nat nmods) (combine al hs)) 0) as Hs.
      change (- 0) with 0 in Hs.
      destruct (Qlt_bool 0 (fold_left _ (firstn _ (combine al hs)) 0)) eqn:P;
        [|discriminate].
      intros _. tests.
      destruct (Qlt_bool 0 (fold_left _ (map _ _) 0)) eqn:N; [|reflexivity].
      tests. rewrite Hs in N. lra.
    + intro Hl.
      rewrite !firstn_all2
        by (rewrite length_combine; try rewrite length_map; lia).
      rewrite combine_map_limit. reflexivity.
Qed.

(** ** ARCING: runs *)

Lemma quad_exp_positive (t : Q) : 0 < fexp quad_libm t.
Proof.
  cbn [fexp quad_libm]. rewrite Qred_correct.
  assert (H : 0 <= (2 * t - 1) * (2 * t - 1)).
  { destruct (Qlt_le_dec (2 * t - 1) 0).
    - setoid_replace ((2 * t - 1) * (2 * t - 1))
        with ((- (2 * t - 1)) * (- (2 * t - 1))) by ring.
      apply Qmult_le_0_compat; lra.
    - apply Qmult_le_0_compat; lra. }
  lra.
Qed.

Lemma quad_exp_proper (s t : Q) : s == t -> fexp quad_libm s == fexp quad_libm t.
Proof.
  intro H. cbn [fexp quad_libm]. rewrite !Qred_correct, H. reflexivity.
Qed.

Lemma quad_exp_nonneg (t : Q) : 0 <= fexp quad_libm t.
Proof.
  apply Qlt_le_weak, quad_exp_positive.
Qed.



Lemma train_counts_witness :
  (0 <= 2)%Z
  /\ exists r,
       Arcing.train run_libm fixed_predictions 10 2 [1; 1] 2 = Some r
       /\ (0 <= Arcing.nmodels r <= 2)%Z
       /\ Z.of_nat (length (Arcing.alpha r)) = Arcing.nmodels r.
Proof.
  split; [lia|].
  eexists. split; [vm_compute; reflexivity|].
  apply (train_counts run_libm fixed_predictions 10 2 [1; 1] 2);
    [lia | vm_compute; reflexivity].
Defined.

Lemma optimal_alpha_in_bracket_witness :
  exists a b,
    Arcing.optimal_alpha quad_libm 10 [1 # 2; 1 # 2] [1; - (1)] = Some a
    /\ GlobMin.glob_min quad_libm
         (Arcing.alpha_crit quad_libm [1 # 2; 1 # 2] [1; - (1)])
         10 (- (1)) 1 3 false 0 Arcing.locals = Some b
    /\ GlobMin.x1 b < GlobMin.x2 b /\ GlobMin.x2 b < GlobMin.x3 b
    /\ GlobMin.x1 b <= a /\ a <= GlobMin.x3 b.
Proof.
  eexists.
  destruct (optimal_alpha_in_bracket quad_libm 10 [1 # 2; 1 # 2]
              [1; - (1)] _ ltac:(vm_compute; reflexivity))
    as (b & H).
  exists b. split; [reflexivity | exact H].
Defined.

Lemma optimal_alpha_no_worse_witness :
  (forall s t, s == t -> fexp quad_libm s == fexp quad_libm t)
  /\ (forall t, 0 <= fexp quad_libm t)
  /\ Forall (fun v => 0 <= v) [1 # 2; 1 # 2]
  /\ 1 == 1
  /\ exists a,
       Arcing.optimal_alpha quad_libm 10 [1 # 2; 1 # 2] [1; - (1)] = Some a
       /\ Arcing.alpha_crit quad_libm [1 # 2; 1 # 2] [1; - (1)] a
          <= Arcing.alpha_crit quad_libm [1 # 2; 1 # 2] [1; - (1)] 1.
Proof.
  assert (H : Forall (fun v => 0 <= v) [1 # 2; 1 # 2])
    by (repeat constructor; discriminate).
  split; [exact quad_exp_proper|]. split; [exact quad_exp_nonneg|].
  split; [exact H|]. split; [reflexivity|].
  eexists. split; [vm_compute; reflexivity|].
  apply (optimal_alpha_no_worse quad_libm quad_exp_proper quad_exp_nonneg 10
           [1 # 2; 1 # 2] [1; - (1)]);
    [exact H | vm_compute; reflexivity | right; right; reflexivity].
Defined.

Lemma class_predict_flags_witness :
  Arcing.class_predict 2 [1; 1 # 2] [3; - (1 # 2)] = 0%Z
  /\ Arcing.class_predict 2 [1; 1 # 2] (map Qopp [3; - (1 # 2)]) = 1%Z.
Proof.
  split; [reflexivity|].
  exact (proj1 (proj2 (proj2 (class_predict_flags 2 [1; 1 # 2]
                                [3; - (1 # 2)]))) eq_refl).
Defined.
